(** * Neoclassical transport proxies of DESC

    A shallow embedding of [desc/compute/_neoclassical.py] (field line
    length, effective ripple) and of [desc/objectives/_neoclassical.py]
    (the [EffectiveRipple] and [GammaC] objectives).

    Arrays hold IEEE binary64 numbers, modelled by Rocq's primitive
    floats.  The data dict of the compute framework is a finite map from
    quantity names to arrays; a missing key ([KeyError]) or a shape
    mismatch is the error value [None]. *)

From Stdlib Require Import ZArith Floats Numbers.Cyclic.Int63.Uint63.
From stdpp Require Import gmap strings list fin_maps.

(** ** Arrays *)

(** A value of the data dict: a 0-d array (such as ["R0"]) or a 1-d array
    with one entry per grid node. *)
Inductive ndarray : Type :=
| Scalar (x : float)
| Array (xs : list float).

(** The entries of an array in storage order. *)
Definition entries (v : ndarray) : list float :=
  match v with
  | Scalar x => [x]
  | Array xs => xs
  end.

(** Unary element-wise operation. *)
Definition ew1 (f : float → float) (v : ndarray) : ndarray :=
  match v with
  | Scalar x => Scalar (f x)
  | Array xs => Array (f <$> xs)
  end.

(** Unary element-wise operation on a 2-d array. *)
Definition ew1_2d (f : float → float) (xss : list (list float)) :
    list (list float) :=
  (λ row : list float, f <$> row) <$> xss.

(** Broadcasting of a binary operation along one axis: equal lengths are
    zipped, an axis of length one is stretched, anything else is a shape
    error. *)
Definition broadcast_axis {A B C : Type} (op : A → B → option C)
    (xs : list A) (ys : list B) : option (list C) :=
  if decide (length xs = length ys) then
    mapM (λ p, op p.1 p.2) (zip xs ys)
  else
    match xs, ys with
    | [x], _ => mapM (op x) ys
    | _, [y] => mapM (λ x, op x y) xs
    | _, _ => None
    end.

Definition lift2 (op : float → float → float) (x y : float) : option float :=
  Some (op x y).

(** Binary element-wise operation on 1-d and on 2-d arrays. *)
Definition ew2_1d (op : float → float → float) :
    list float → list float → option (list float) :=
  broadcast_axis (lift2 op).

Definition ew2_2d (op : float → float → float) :
    list (list float) → list (list float) → option (list (list float)) :=
  broadcast_axis (ew2_1d op).

(** Binary element-wise operation on values of the data dict. *)
Definition ew2 (op : float → float → float) (a b : ndarray) : option ndarray :=
  match a, b with
  | Scalar x, Scalar y => Some (Scalar (op x y))
  | Scalar x, Array ys => Some (Array (op x <$> ys))
  | Array xs, Scalar y => Some (Array ((λ x, op x y) <$> xs))
  | Array xs, Array ys => Array <$> ew2_1d op xs ys
  end.

(** [x.sum()] over one axis, accumulated from zero in storage order. *)
Definition array_sum (xs : list float) : float := foldl PrimFloat.add 0%float xs.

(** [x.sum(axis=-1)] of a 2-d array. *)
Definition sum_last_axis (xss : list (list float)) : list float :=
  array_sum <$> xss.

Definition float_of_nat (n : nat) : float :=
  PrimFloat.of_uint63 (Uint63.of_Z (Z.of_nat n)).

(** Column [j] of a 2-d array stored by rows. *)
Definition column (j : nat) (f : list (list float)) : list float :=
  omap (λ row, row !! j) f.

(** [f.mean(axis=0)] of a 2-d array: for every column the sum of its entries
    divided by the number of rows.  The number of columns is read off the
    first row. *)
Definition mean_axis0 (f : list (list float)) : list float :=
  (λ j, (array_sum (column j f) / float_of_nat (length f))%float)
    <$> seq 0 (length (default [] (head f))).

(** ** Helpers of the repository that live outside the two source files *)

(** Modelled from the spec: [desc.utils.safediv] is missing from the
    sources.  The spec describes it as a safe division that yields zero
    when the divisor is zero, so that a degenerate well contributes nothing
    instead of a NaN. *)
Definition safediv (a b : float) : float :=
  if (b =? 0)%float then 0%float else (a / b)%float.

(** Modelled from the spec: the grid class [desc.grid.Grid] is missing from
    the sources.  The spec describes a structured set of sample points
    indexed by (ρ, α, ζ) with an index table mapping each grid point to its
    owning flux surface; [expand] is the gather through that table. *)
Record Grid : Type := {
  num_rho : nat;
  num_alpha : nat;
  num_zeta : nat;
  nodes : list (float * float * float);
  inverse_rho_idx : list nat;
}.

(** [grid.nodes[:, 2]] *)
Definition nodes_zeta (grid : Grid) : ndarray := Array ((λ n, n.2) <$> nodes grid).

(** Modelled from the spec: [grid.expand(x)] takes one value per flux
    surface and gives every grid point the value of its owning surface. *)
Definition expand (grid : Grid) (x : list float) : option (list float) :=
  if decide (length x = num_rho grid) then
    mapM (λ s, x !! s) (inverse_rho_idx grid)
  else None.

(** The leading-axis length shared by all arrays of a dict, if there is one. *)
Definition axis0_len {T : Type} (x : gmap string (list T)) : option nat :=
  match map_to_list x with
  | [] => None
  | (_, v) :: _ =>
      if decide (map_Forall (λ _ w, length w = length v) x)
      then Some (length v) else None
  end.

(** Entry [i] along the leading axis of every array of a dict. *)
Definition slice {T : Type} (i : nat) (x : gmap string (list T)) : gmap string T :=
  omap (λ v, v !! i) x.

(** Modelled from the spec: [desc.backend.imap] is missing from the
    sources.  The spec describes a sequential mapped evaluation: the function
    is applied to the dict of slices along the leading axis, one index after
    the other, and the results are stacked. *)
Definition imap {T U : Type} (f : gmap string T → option U)
    (xs : gmap string (list T)) : option (list U) :=
  n ← axis0_len xs;
  mapM (λ i, f (slice i xs)) (seq 0 n).

(** Keyword arguments of the compute framework: a dict of quadratures,
    integers, booleans and [None]. *)
Definition Quad : Type := list float * list float.

Inductive KwVal : Type :=
| KQuad (q : Quad)
| KInt (n : nat)
| KBool (b : bool)
| KNone.

(** [kwargs.get(name, dflt)] for an integer option. *)
Definition kw_int (kwargs : gmap string KwVal) (name : string) (dflt : nat) :
    option nat :=
  match kwargs !! name with
  | None => Some dflt
  | Some (KInt n) => Some n
  | Some _ => None
  end.

(** [kwargs.get(name, dflt)] for a boolean option. *)
Definition kw_bool (kwargs : gmap string KwVal) (name : string) (dflt : bool) :
    option bool :=
  match kwargs !! name with
  | None => Some dflt
  | Some (KBool b) => Some b
  | Some _ => None
  end.

(** [kwargs.get(name, None)] for an integer option that may be [None]. *)
Definition kw_int_or_none (kwargs : gmap string KwVal) (name : string) :
    option (option nat) :=
  match kwargs !! name with
  | None | Some KNone => Some None
  | Some (KInt n) => Some (Some n)
  | Some _ => None
  end.

(** An integrand of a bounce integral, at one quadrature point: the
    interpolated named fields, the field strength and the pitch. *)
Definition Integrand : Type := gmap string float → float → float → option float.

(** What [_compute] returns: with [reduce] one value per grid node, without
    it the raw table indexed by field line and flux surface. *)
Inductive ComputeResult : Type :=
| Reduced (x : list float)
| Raw (out : list (list float)).

(** ** A small instance of the external routines

    Stand-ins for the numerical routines on a grid of two flux surfaces, two
    field lines and three ζ nodes, on which the definitions can be run.  The
    grid stores its nodes with ρ running fastest, then α, then ζ. *)

Module Toy.

Fixpoint pow_nat (x : float) (n : nat) : float :=
  match n with
  | O => 1%float
  | S n => (x * pow_nat x n)%float
  end.

Definition integer_pow (x : float) (y : Z) : float :=
  match y with
  | Z0 => 1%float
  | Zpos p => pow_nat x (Pos.to_nat p)
  | Zneg p => (1 / pow_nat x (Pos.to_nat p))%float
  end.

(** A few steps of Newton's iteration for the cube root, started at
    [(x + 2) / 3]. *)
Fixpoint cbrt_iter (n : nat) (x c : float) : float :=
  match n with
  | O => c
  | S n => cbrt_iter n x ((2 * c + x / (c * c)) / 3)%float
  end.

(** The power function on the two float exponents of the sources, 0.5 and
    2/3. *)
Definition pow (x y : float) : float :=
  if (y =? 0.5)%float then PrimFloat.sqrt x
  else if (x =? 0)%float then 0%float
  else if (y =? 2 / 3)%float then
    (cbrt_iter 10 x ((x + 2) / 3) * cbrt_iter 10 x ((x + 2) / 3))%float
  else nan.

(** Simpson's rule on panels of three samples. *)
Fixpoint simpson (y x : list float) : float :=
  match y, x with
  | y0 :: y1 :: ((y2 :: _) as y'), x0 :: _ :: ((x2 :: _) as x') =>
      ((x2 - x0) / 6 * (y0 + 4 * y1 + y2) + simpson y' x')%float
  | _, _ => 0%float
  end.

Definition grid : Grid :=
  {| num_rho := 2; num_alpha := 2; num_zeta := 3;
     nodes :=
       (λ n, (float_of_nat (1 + n mod 2), float_of_nat (n / 2 mod 2),
              float_of_nat (n / 4))) <$> seq 0 12;
     inverse_rho_idx := (λ n, n mod 2) <$> seq 0 12 |}.

Definition compress (g : Grid) (surface_label : string) (x : ndarray) : list float :=
  if decide (surface_label = "rho") then take (num_rho g) (entries x)
  else
    (λ z, default nan (entries x !! (z * (num_rho g * num_alpha g))))
      <$> seq 0 (num_zeta g).

Definition meshgrid_reshape (g : Grid) (x : ndarray) (order : string) :
    list (list (list float)) :=
  (λ a, (λ r, (λ z, default nan (entries x !! (r + num_rho g * (a + num_alpha g * z))))
                 <$> seq 0 (num_zeta g))
          <$> seq 0 (num_rho g))
    <$> seq 0 (num_alpha g).

Definition reshape_data (g : Grid) (x : ndarray) : list (list (list float)) :=
  meshgrid_reshape g x "arz".

Definition required_names : list string :=
  ["B^zeta"; "B^zeta_z|r,a"; "|B|"; "|B|_z|r,a"].

(** Midpoint nodes between the minimum and the maximum of |B|, with uniform
    weights. *)
Definition get_pitch_inv_quad (min_B max_B : list float) (num_pitch : nat)
    (simp : bool) : list (list float) * list (list float) :=
  (zip_with (λ lo hi,
     (λ k, (lo + (hi - lo) * (float_of_nat k + 0.5) / float_of_nat num_pitch)%float)
       <$> seq 0 num_pitch) min_B max_B,
   zip_with (λ lo hi, replicate num_pitch ((hi - lo) / float_of_nat num_pitch)%float)
     min_B max_B).

(** A rule of the right size; the stand-in integrator does not read it. *)
Definition chebgauss2 (n : nat) : Quad :=
  (replicate n 0%float, replicate n (1 / float_of_nat n)%float).

Definition linspace (start stop : float) (num : nat) : list float :=
  (λ k, (start + (stop - start) * float_of_nat k / float_of_nat (num - 1))%float)
    <$> seq 0 num.

(** The stand-in integrator sums the integrand over the ζ samples of the
    field line and reports that as the first well, followed by one empty
    well. *)
Definition line_sum (f : Integrand) (data : gmap string (list float))
    (name : string) (pitch : float) : float :=
  array_sum
    (zip_with (λ B k, default nan (f {[name := k]} B pitch))
       (default [] (data !! "|B|")) (default [] (data !! name))).

Definition Bounce1D_new (g : Grid) (data : gmap string (list float)) (quad : Quad) :
    gmap string (list float) := data.

Definition Bounce1D_points (bounce : gmap string (list float))
    (pitch_inv : list float) (num_well : option nat) : list float := pitch_inv.

Definition Bounce1D_integrate (bounce : gmap string (list float))
    (integrands : list Integrand) (pitch_inv : list float)
    (data : gmap string (list float)) (name : string) (points : list float)
    (batch : bool) : list (list (list float)) :=
  (λ f, (λ x, [line_sum f data name (1 / x)%float; 0%float]) <$> pitch_inv)
    <$> integrands.

Definition on_nodes (v : float) : ndarray := Array (replicate 12 v).

Definition data : gmap string ndarray :=
  <["|B|" := Array ((λ n : nat, if decide (n / 4 = 1) then 1%float else 2%float)
                      <$> seq 0 12)]>
  (<["B^zeta" := on_nodes 0.5]>
  (<["B^zeta_z|r,a" := on_nodes 0]>
  (<["|B|_z|r,a" := on_nodes 0]>
  (<["min_tz |B|" := on_nodes 1]>
  (<["max_tz |B|" := on_nodes 2]>
  (<["kappa_g" := Array ((λ n : nat, float_of_nat (1 + n mod 4) / 4)%float <$> seq 0 12)]>
  (<["R0" := Scalar 1]>
  (<["|grad(rho)|" := on_nodes 1]>
  (<["<|grad(rho)|>" := on_nodes 1]>
  {["fieldline length" := on_nodes 4]}))))))))).

(** The framework around the objectives: every requested quantity is one
    on all nodes, grids are the grid above. *)
Definition compute_fun (eq : unit) (names : list string) (params : unit)
    (transforms profiles : list string) (data : gmap string ndarray)
    (kw : gmap string KwVal) : gmap string ndarray :=
  foldr (λ name d, <[name := on_nodes 1]> d) data names.

Definition LinearGrid (rho : list float) (eq : unit) : Grid := grid.

Definition get_transforms (names : list string) (eq : unit) (g : Grid)
    (jitable : bool) : list string := names.

Definition get_profiles (names : list string) (eq : unit) (g : Grid) :
    list string := names.

Definition _get_rtz_grid (eq : unit) (rho alpha zeta : list float)
    (coordinates : string) (iota : list float) (params : unit) : Grid := grid.

Definition copy_data_from_other (g : Grid) (x : ndarray) (other : Grid) : ndarray := x.

Definition get_quadrature (quad : Quad)
    (automorphism : (float → float) * (float → float)) : Quad := quad.

Definition kwargs : gmap string KwVal :=
  <["quad" := KQuad (chebgauss2 4)]>
  (<["num_pitch" := KInt 2]>
  (<["num_well" := KInt 2]>
  {["batch" := KBool true]})).

End Toy.

(** ** desc/compute/_neoclassical.py *)

Section Neoclassical.

(** Numerical routines of the libraries and of the rest of DESC that the two
    files call.  They are parameters of the development: every result below
    holds whatever they compute. *)

(** [x ** y] for a float exponent and for a Python integer exponent. *)
Variable pow : float → float → float.
Variable integer_pow : float → Z → float.
(** [quadax.simpson(y, x)] along one row of samples. *)
Variable simpson : list float → list float → float.
(** [grid.compress(x, surface_label)], [grid.meshgrid_reshape(x, order)] and
    [Bounce1D.reshape_data(grid, x)]. *)
Variable compress : Grid → string → ndarray → list float.
Variable meshgrid_reshape : Grid → ndarray → string → list (list (list float)).
Variable reshape_data : Grid → ndarray → list (list (list float)).
(** [Bounce1D.required_names] and [Bounce1D.get_pitch_inv_quad]. *)
Variable required_names : list string.
Variable get_pitch_inv_quad :
  list float → list float → nat → bool → list (list float) * list (list float).
Variable chebgauss2 : nat → Quad.
(** The bounce integrator: its constructor, [points] and [integrate]. *)
Variable Bounce1D : Type.
Variable Points : Type.
Variable Bounce1D_new : Grid → gmap string (list float) → Quad → Bounce1D.
Variable Bounce1D_points : Bounce1D → list float → option nat → Points.
Variable Bounce1D_integrate :
  Bounce1D → list Integrand → list float → gmap string (list float) → string →
  Points → bool → list (list (list float)).

(** [jnp.pi] *)
Definition jnp_pi : float := 0x1.921fb54442d18p+1%float.

(** Simple mean over field lines: [f.mean(axis=0)]. *)
Definition _alpha_mean (f : list (list float)) : list float := mean_axis0 f.

(** The local function [foreach_rho] of [_compute]: the same λ values for
    every field line α on flux surface ρ. *)
Definition foreach_rho {U : Type} (fun_ : gmap string (list float) → option U)
    (pitch_inv pitch_inv_weight : list (list float))
    (x : gmap string (list (list float))) : option (list U) :=
  imap fun_ (<["pitch_inv weight" := pitch_inv_weight]> (<["pitch_inv" := pitch_inv]> x)).

(** [for name in Bounce1D.required_names: fun_data[name] = data[name]] *)
Fixpoint copy_required (names : list string) (data fun_data : gmap string ndarray) :
    option (gmap string ndarray) :=
  match names with
  | [] => Some fun_data
  | name :: names =>
      v ← data !! name;
      copy_required names data (<[name := v]> fun_data)
  end.

(** The pitch quadrature of [_compute]. *)
Definition pitch_quad (data : gmap string ndarray) (grid : Grid) (num_pitch : nat)
    (simp : bool) : option (list (list float) * list (list float)) :=
  min_B ← data !! "min_tz |B|";
  max_B ← data !! "max_tz |B|";
  Some (get_pitch_inv_quad (compress grid "rho" min_B) (compress grid "rho" max_B)
          num_pitch simp).

(** The dict [fun_data] as [_compute] leaves it: the required names copied
    from [data], every array reshaped to (field line, flux surface, ζ). *)
Definition fun_data_reshaped (fun_data data : gmap string ndarray) (grid : Grid) :
    option (gmap string (list (list (list float)))) :=
  (λ fd : gmap string ndarray, reshape_data grid <$> fd)
    <$> copy_required required_names data fun_data.

(** The dict that [fun] receives for field line [a] and flux surface [r]:
    the slice of the reshaped [fun_data] with the pitch quadrature of the
    surface attached. *)
Definition fun_arg (q : list (list float) * list (list float))
    (fun_data : gmap string (list (list (list float)))) (a r : nat) :
    gmap string (list float) :=
  slice r (<["pitch_inv weight" := q.2]> (<["pitch_inv" := q.1]> (slice a fun_data))).

(** The table [out] of [_compute], indexed by field line and flux surface. *)
Definition _compute_out {U : Type} (fun_ : gmap string (list float) → option U)
    (fun_data data : gmap string ndarray) (grid : Grid) (num_pitch : nat)
    (simp : bool) : option (list (list U)) :=
  q ← pitch_quad data grid num_pitch simp;
  fun_data ← fun_data_reshaped fun_data data grid;
  imap (foreach_rho fun_ q.1 q.2) fun_data.

(** [_compute] returns its result together with the modified [fun_data],
    which the caller passed by reference. *)
Definition _compute (fun_ : gmap string (list float) → option float)
    (fun_data data : gmap string ndarray) (grid : Grid) (num_pitch : nat)
    (simp reduce : bool) :
    option (ComputeResult * gmap string (list (list (list float)))) :=
  out ← _compute_out fun_ fun_data data grid num_pitch simp;
  fun_data ← fun_data_reshaped fun_data data grid;
  r ← (if reduce then Reduced <$> expand grid (_alpha_mean out) else Some (Raw out));
  Some (r, fun_data).

(** [_fieldline_length]; [grid] is [transforms["grid"].source_grid]. *)
Definition _fieldline_length (data : gmap string ndarray) (grid : Grid) :
    option (gmap string ndarray) :=
  Bz ← data !! "B^zeta";
  let L_ra :=
    (λ row : list (list float),
       (λ y, simpson y (compress grid "zeta" (nodes_zeta grid))) <$> row)
      <$> meshgrid_reshape grid (ew1 (PrimFloat.div 1) Bz) "arz" in
  L ← expand grid (PrimFloat.abs <$> _alpha_mean L_ra);
  Some (<["fieldline length" := Array L]> data).

(** [_fieldline_length_over_volume] *)
Definition _fieldline_length_over_volume (data : gmap string ndarray) (grid : Grid) :
    option (gmap string ndarray) :=
  Bz ← data !! "B^zeta";
  sqrt_g ← data !! "sqrt(g)";
  den ← ew2 PrimFloat.mul Bz sqrt_g;
  let G_ra :=
    (λ row : list (list float),
       (λ y, simpson y (compress grid "zeta" (nodes_zeta grid))) <$> row)
      <$> meshgrid_reshape grid (ew1 (PrimFloat.div 1) den) "arz" in
  G ← expand grid (PrimFloat.abs <$> _alpha_mean G_ra);
  Some (<["fieldline length/volume" := Array G]> data).

(** Integrand of Nemov eq. 30 with |∂ψ/∂ρ| (λB₀)¹ᐧ⁵ removed. *)
Definition dH : Integrand := λ data B pitch,
  k ← data !! "|grad(rho)|*kappa_g";
  Some (PrimFloat.sqrt (PrimFloat.abs (1 - pitch * B))
        * (4 / (pitch * B) - 1) * k / B)%float.

(** Integrand of Nemov eq. 31. *)
Definition dI : Integrand := λ data B pitch,
  Some (PrimFloat.sqrt (PrimFloat.abs (1 - pitch * B)) / B)%float.

(** [safediv(H**2, I)]: the contribution of every well at every pitch. *)
Definition well_terms (H I : list (list float)) : option (list (list float)) :=
  ew2_2d safediv (ew1_2d (λ h, integer_pow h 2) H) I.

(** The closing expression of [eps_32]. *)
Definition pitch_sum (H I : list (list float)) (pitch_inv weight : list float) :
    option float :=
  q ← well_terms H I;
  t ← ew2_1d PrimFloat.mul (sum_last_axis q) ((λ x, integer_pow x (-3)) <$> pitch_inv);
  u ← ew2_1d PrimFloat.mul t weight;
  Some (array_sum u).

(** The local function [eps_32] of [_epsilon_32], closed over the grid, the
    quadrature and the hyperparameters.  The integrator is built with
    [automorphism=None] and [is_reshaped=True]. *)
Definition eps_32 (grid : Grid) (quad : Quad) (num_well : option nat) (batch : bool)
    (data : gmap string (list float)) : option float :=
  pitch_inv ← data !! "pitch_inv";
  let bounce := Bounce1D_new grid data quad in
  match
    Bounce1D_integrate bounce [dH; dI] pitch_inv data "|grad(rho)|*kappa_g"
      (Bounce1D_points bounce pitch_inv num_well) batch
  with
  | [H_; I_] =>
      weight ← data !! "pitch_inv weight";
      pitch_sum H_ I_ pitch_inv weight
  | _ => None
  end.

(** The quadrature of the bounce integrals chosen by the keyword arguments. *)
Definition kw_quad (kwargs : gmap string KwVal) : option Quad :=
  match kwargs !! "quad" with
  | Some (KQuad q) => Some q
  | Some _ => None
  | None => chebgauss2 <$> kw_int kwargs "num_quad" 32
  end.

(** [π / (8 √2) (B₀ R₀ / ⟨|∇ρ|⟩)²] *)
Definition prefactor (B0 R0 grad_rho_avg : ndarray) : option ndarray :=
  t ← ew2 PrimFloat.mul B0 R0;
  t ← ew2 PrimFloat.div t grad_rho_avg;
  Some (ew1 (PrimFloat.mul (jnp_pi / (8 * pow 2 0.5))%float)
          (ew1 (λ x, integer_pow x 2) t)).

(** The right-hand side of the assignment to ["effective ripple 3/2"]. *)
Definition epsilon_32_value (grid : Grid) (data : gmap string ndarray)
    (kwargs : gmap string KwVal) : option ndarray :=
  quad ← kw_quad kwargs;
  num_well ← kw_int_or_none kwargs "num_well";
  batch ← kw_bool kwargs "batch" true;
  B0 ← data !! "max_tz |B|";
  R0 ← data !! "R0";
  grad_rho_avg ← data !! "<|grad(rho)|>";
  c ← prefactor B0 R0 grad_rho_avg;
  grad_rho ← data !! "|grad(rho)|";
  kappa_g ← data !! "kappa_g";
  gk ← ew2 PrimFloat.mul grad_rho kappa_g;
  num_pitch ← kw_int kwargs "num_pitch" 50;
  r ← _compute (eps_32 grid quad num_well batch) {["|grad(rho)|*kappa_g" := gk]}
        data grid num_pitch false true;
  match r.1 with
  | Reduced avg =>
      t ← ew2 PrimFloat.mul c (Array avg);
      L ← data !! "fieldline length";
      ew2 PrimFloat.div t L
  | Raw _ => None
  end.

(** [_epsilon_32] writes the value into the data dict it was given and
    returns that dict; [grid] is [transforms["grid"].source_grid], and the
    arguments [params] and [profiles], which the function does not read, are
    left out. *)
Definition _epsilon_32 (grid : Grid) (data : gmap string ndarray)
    (kwargs : gmap string KwVal) : option (gmap string ndarray) :=
  e ← epsilon_32_value grid data kwargs;
  Some (<["effective ripple 3/2" := e]> data).

(** The dependencies that the registration of "effective ripple 3/2"
    declares. *)
Definition epsilon_32_deps : list string :=
  ["min_tz |B|"; "max_tz |B|"; "kappa_g"; "R0"; "|grad(rho)|"; "<|grad(rho)|>";
   "fieldline length"] ++ required_names.

(** [_effective_ripple] *)
Definition _effective_ripple (data : gmap string ndarray) :
    option (gmap string ndarray) :=
  e ← data !! "effective ripple 3/2";
  Some (<["effective ripple" := ew1 (λ x, pow x (2 / 3)%float) e]> data).

(** ** desc/objectives/_neoclassical.py *)

(** The optimisation framework around the two objectives: equilibria, grids
    built from them, the compute entry point and the quadrature rules. *)
Variable Equilibrium : Type.
Variable Params : Type.
Variable Transforms : Type.
Variable Profiles : Type.
Variable LinearGrid : list float → Equilibrium → Grid.
Variable get_transforms : list string → Equilibrium → Grid → bool → Transforms.
Variable get_profiles : list string → Equilibrium → Grid → Profiles.
Variable compute_fun :
  Equilibrium → list string → Params → Transforms → Profiles →
  gmap string ndarray → gmap string KwVal → gmap string ndarray.
Variable _get_rtz_grid :
  Equilibrium → list float → list float → list float → string → list float →
  Params → Grid.
Variable copy_data_from_other : Grid → ndarray → Grid → ndarray.
Variable leggauss : nat → Quad.
Variable get_quadrature : Quad → (float → float) * (float → float) → Quad.
Variable automorphism_sin : float → float.
Variable grad_automorphism_sin : float → float.
Variable linspace : float → float → nat → list float.

(** A target or a bound: a number, one number per flux surface, or a
    callable evaluated on the flux surface labels when the objective is
    built. *)
Inductive Target : Type :=
| TScalar (x : float)
| TArray (xs : list float)
| TCallable (f : list float → list float).

Variable _parse_callable_target_bounds :
  option Target → option (Target * Target) → list float →
  option Target * option (Target * Target).

(** Modelled from the spec: the base class [_Objective] is missing from the
    sources.  The spec has the objective return one scalar per target flux
    surface; a scalar target stands for that same target on each of them and
    an array target must have one entry per surface. *)
Definition broadcast_target (t : Target) (dim_f : nat) : option (list float) :=
  match t with
  | TScalar x => Some (replicate dim_f x)
  | TArray xs => if decide (length xs = dim_f) then Some xs else None
  | TCallable _ => None
  end.

(** The arguments that both constructors hand to the constructor of the base
    class. *)
Record ObjectiveArgs : Type := {
  arg_things : Equilibrium;
  arg_target : option Target;
  arg_bounds : option (Target * Target);
  arg_weight : float;
  arg_normalize : bool;
  arg_normalize_target : bool;
  arg_loss_function : option string;
  arg_deriv_mode : string;
  arg_name : string;
  arg_jac_chunk_size : option nat;
}.

(** The keyword arguments of the two constructors that are not handed on
    unchanged. *)
Record BounceArgs : Type := {
  arg_rho : ndarray;
  arg_alpha : ndarray;
  arg_batch : bool;
  arg_Y_B : nat;
  arg_num_transit : nat;
  arg_num_quad : nat;
  arg_num_pitch : nat;
  arg_num_well : option nat;
}.

(** Entries of the [_constants] dict of an objective. *)
Inductive Const : Type :=
| CFloat (x : float)
| CArray (xs : list float)
| CQuad (q : Quad)
| CTransforms (t : Transforms)
| CProfiles (p : Profiles).

Definition const_array (constants : gmap string Const) (key : string) :
    option (list float) :=
  match constants !! key with Some (CArray xs) => Some xs | _ => None end.

Definition const_quad (constants : gmap string Const) (key : string) : option Quad :=
  match constants !! key with Some (CQuad q) => Some q | _ => None end.

Definition const_transforms (constants : gmap string Const) (key : string) :
    option Transforms :=
  match constants !! key with Some (CTransforms t) => Some t | _ => None end.

Definition const_profiles (constants : gmap string Const) (key : string) :
    option Profiles :=
  match constants !! key with Some (CProfiles p) => Some p | _ => None end.

(** [if target is None and bounds is None: target = 0.0] *)
Definition default_target (target : option Target)
    (bounds : option (Target * Target)) : option Target :=
  match target, bounds with
  | None, None => Some (TScalar 0)
  | _, _ => target
  end.

Definition kw_of_num_well (num_well : option nat) : KwVal :=
  match num_well with Some n => KInt n | None => KNone end.

(** [np.linspace(0, 2 * np.pi * num_transit, Y_B * num_transit)] *)
Definition zeta_knots (b : BounceArgs) : list float :=
  linspace 0 (2 * jnp_pi * float_of_nat (arg_num_transit b))%float
    (arg_Y_B b * arg_num_transit b).

(** The state of an [EffectiveRipple] object. *)
Record EffectiveRipple : Type := {
  er_base : ObjectiveArgs;
  er_dim_f : nat;
  er_keys_1dr : list string;
  er_constants : gmap string Const;
  er_hyperparameters : gmap string KwVal;
}.

(** [EffectiveRipple.__init__] *)
Definition EffectiveRipple_init (a : ObjectiveArgs) (b : BounceArgs) : EffectiveRipple :=
  let target := default_target (arg_target a) (arg_bounds a) in
  let rho := entries (arg_rho b) in
  let alpha := entries (arg_alpha b) in
  {| er_dim_f := length rho;
     er_keys_1dr :=
       ["iota"; "iota_r"; "<|grad(rho)|>"; "min_tz |B|"; "max_tz |B|"; "R0"];
     er_constants :=
       <["quad" := CQuad (chebgauss2 (arg_num_quad b))]>
       (<["zeta" := CArray (zeta_knots b)]>
       (<["alpha" := CArray alpha]>
       (<["rho" := CArray rho]>
       {["quad_weights" := CFloat 1]})));
     er_hyperparameters :=
       <["num_well" := kw_of_num_well (arg_num_well b)]>
       (<["batch" := KBool (arg_batch b)]>
       {["num_pitch" := KInt (arg_num_pitch b)]});
     er_base :=
       {| arg_things := arg_things a; arg_target := target;
          arg_bounds := arg_bounds a; arg_weight := arg_weight a;
          arg_normalize := arg_normalize a;
          arg_normalize_target := arg_normalize_target a;
          arg_loss_function := arg_loss_function a;
          arg_deriv_mode := arg_deriv_mode a; arg_name := arg_name a;
          arg_jac_chunk_size := arg_jac_chunk_size a |} |}.

(** The state of a [GammaC] object.  The base constructor is taken to store
    target and bounds as it receives them; [gc_grid_1dr] is set by [build]. *)
Record GammaC : Type := {
  gc_base : ObjectiveArgs;
  gc_dim_f : nat;
  gc_constants : gmap string Const;
  gc_hyperparameters : gmap string KwVal;
  gc_keys_1dr : list string;
  gc_key : string;
  gc_target : option Target;
  gc_bounds : option (Target * Target);
  gc_grid_1dr : option Grid;
}.

(** [GammaC.__init__] *)
Definition GammaC_init (a : ObjectiveArgs) (b : BounceArgs) (Nemov : bool) : GammaC :=
  let target := default_target (arg_target a) (arg_bounds a) in
  let rho := entries (arg_rho b) in
  let alpha := entries (arg_alpha b) in
  {| gc_dim_f := length rho;
     gc_constants :=
       <["zeta" := CArray (zeta_knots b)]>
       (<["alpha" := CArray alpha]>
       (<["rho" := CArray rho]>
       {["quad_weights" := CFloat 1]}));
     gc_hyperparameters :=
       <["num_well" := kw_of_num_well (arg_num_well b)]>
       (<["batch" := KBool (arg_batch b)]>
       (<["num_pitch" := KInt (arg_num_pitch b)]>
       {["num_quad" := KInt (arg_num_quad b)]}));
     gc_keys_1dr := ["iota"; "iota_r"; "min_tz |B|"; "max_tz |B|"];
     gc_key := if Nemov then "Gamma_c" else "Gamma_c Velasco";
     gc_target := target;
     gc_bounds := arg_bounds a;
     gc_grid_1dr := None;
     gc_base :=
       {| arg_things := arg_things a; arg_target := target;
          arg_bounds := arg_bounds a; arg_weight := arg_weight a;
          arg_normalize := arg_normalize a;
          arg_normalize_target := arg_normalize_target a;
          arg_loss_function := arg_loss_function a;
          arg_deriv_mode := arg_deriv_mode a; arg_name := arg_name a;
          arg_jac_chunk_size := arg_jac_chunk_size a |} |}.

(** [self._hyperparameters.pop(key)] for an integer entry. *)
Definition pop_int (hyper : gmap string KwVal) (key : string) :
    option (nat * gmap string KwVal) :=
  match hyper !! key with
  | Some (KInt n) => Some (n, delete key hyper)
  | _ => None
  end.

(** [GammaC.build] *)
Definition GammaC_build (self : GammaC) : option GammaC :=
  let eq := arg_things (gc_base self) in
  rho ← const_array (gc_constants self) "rho";
  let grid_1dr := LinearGrid rho eq in
  popped ← pop_int (gc_hyperparameters self) "num_quad";
  let num_quad := popped.1 in
  let constants :=
    <["quad" := CQuad (get_quadrature (leggauss num_quad)
                         (automorphism_sin, grad_automorphism_sin))]>
      (gc_constants self) in
  let constants :=
    if decide (gc_key self = "Gamma_c")
    then <["quad2" := CQuad (chebgauss2 num_quad)]> constants
    else constants in
  let tb := _parse_callable_target_bounds (gc_target self) (gc_bounds self) rho in
  let constants :=
    <["transforms_1dr" :=
        CTransforms (get_transforms (gc_keys_1dr self) eq grid_1dr false)]>
      constants in
  let constants :=
    <["profiles" :=
        CProfiles (get_profiles (gc_keys_1dr self ++ [gc_key self]) eq grid_1dr)]>
      constants in
  Some {| gc_base := gc_base self; gc_dim_f := gc_dim_f self;
          gc_constants := constants; gc_hyperparameters := popped.2;
          gc_keys_1dr := gc_keys_1dr self; gc_key := gc_key self;
          gc_target := tb.1; gc_bounds := tb.2;
          gc_grid_1dr := Some grid_1dr |}.

(** [{key: grid.copy_data_from_other(data[key], grid_1dr) for key in keys}] *)
Fixpoint copy_keys (keys : list string) (data : gmap string ndarray)
    (grid grid_1dr : Grid) : option (gmap string ndarray) :=
  match keys with
  | [] => Some ∅
  | key :: keys =>
      v ← data !! key;
      rest ← copy_keys keys data grid grid_1dr;
      Some (<[key := copy_data_from_other grid v grid_1dr]> rest)
  end.

(** Keyword dicts spliced into one call must not share a key. *)
Definition splice_kwargs (k1 k2 : gmap string KwVal) : option (gmap string KwVal) :=
  if decide (k1 ##ₘ k2) then Some (k1 ∪ k2) else None.

(** The last call of [compute_fun] in [GammaC.compute]: the name of the
    quantity, the transforms, profiles and data, the keyword arguments and
    the grid the result lives on. *)
Record Request : Type := {
  rq_name : string;
  rq_transforms : Transforms;
  rq_profiles : Profiles;
  rq_data : gmap string ndarray;
  rq_kwargs : gmap string KwVal;
  rq_grid : Grid;
}.

Definition GammaC_request (self : GammaC) (params : Params)
    (constants : option (gmap string Const)) : option Request :=
  let constants := default (gc_constants self) constants in
  let eq := arg_things (gc_base self) in
  transforms_1dr ← const_transforms constants "transforms_1dr";
  profiles ← const_profiles constants "profiles";
  let data := compute_fun eq (gc_keys_1dr self) params transforms_1dr profiles ∅ ∅ in
  rho ← const_array constants "rho";
  alpha ← const_array constants "alpha";
  zeta ← const_array constants "zeta";
  grid_1dr ← gc_grid_1dr self;
  iota ← data !! "iota";
  let grid :=
    _get_rtz_grid eq rho alpha zeta "raz" (compress grid_1dr "rho" iota) params in
  data ← copy_keys (gc_keys_1dr self) data grid grid_1dr;
  quad2 ← (if decide (gc_key self = "Gamma_c")
           then q ← const_quad constants "quad2"; Some {["quad2" := KQuad q]}
           else Some ∅);
  quad ← const_quad constants "quad";
  kwargs ← splice_kwargs {["quad" := KQuad quad]} quad2;
  kwargs ← splice_kwargs kwargs (gc_hyperparameters self);
  Some {| rq_name := gc_key self;
          rq_transforms := get_transforms [gc_key self] eq grid true;
          rq_profiles := profiles; rq_data := data; rq_kwargs := kwargs;
          rq_grid := grid |}.

(** [GammaC.compute] *)
Definition GammaC_compute (self : GammaC) (params : Params)
    (constants : option (gmap string Const)) : option (list float) :=
  rq ← GammaC_request self params constants;
  v ← compute_fun (arg_things (gc_base self)) [rq_name rq] params
         (rq_transforms rq) (rq_profiles rq) (rq_data rq) (rq_kwargs rq)
       !! gc_key self;
  Some (compress (rq_grid rq) "rho" v).

(** The state of an [EffectiveRipple] object after [build]: the object with
    its constants completed, and the attributes that [build] sets. *)
Record EffectiveRippleBuilt : Type := {
  er_self : EffectiveRipple;
  er_grid_1dr : Grid;
  er_target : option Target;
  er_bounds : option (Target * Target);
}.

(** [EffectiveRipple.build]; the base constructor is taken to have stored
    target and bounds as it received them. *)
Definition EffectiveRipple_build (self : EffectiveRipple) : option EffectiveRippleBuilt :=
  let eq := arg_things (er_base self) in
  rho ← const_array (er_constants self) "rho";
  let grid_1dr := LinearGrid rho eq in
  let tb :=
    _parse_callable_target_bounds (arg_target (er_base self))
      (arg_bounds (er_base self)) rho in
  let constants :=
    <["transforms_1dr" :=
        CTransforms (get_transforms (er_keys_1dr self) eq grid_1dr false)]>
      (er_constants self) in
  let constants :=
    <["profiles" :=
        CProfiles (get_profiles (er_keys_1dr self ++ ["effective ripple"]) eq
                     grid_1dr)]>
      constants in
  Some {| er_self :=
            {| er_base := er_base self; er_dim_f := er_dim_f self;
               er_keys_1dr := er_keys_1dr self; er_constants := constants;
               er_hyperparameters := er_hyperparameters self |};
          er_grid_1dr := grid_1dr; er_target := tb.1; er_bounds := tb.2 |}.

(** [{key: grid.copy_data_from_other(data[key], grid_1dr) if key != "R0"
      else data[key] for key in keys}] *)
Fixpoint copy_keys_but_R0 (keys : list string) (data : gmap string ndarray)
    (grid grid_1dr : Grid) : option (gmap string ndarray) :=
  match keys with
  | [] => Some ∅
  | key :: keys =>
      v ← data !! key;
      rest ← copy_keys_but_R0 keys data grid grid_1dr;
      Some (<[key := if decide (key ≠ "R0")
                     then copy_data_from_other grid v grid_1dr else v]> rest)
  end.

(** The last call of [compute_fun] in [EffectiveRipple.compute]. *)
Definition EffectiveRipple_request (built : EffectiveRippleBuilt) (params : Params)
    (constants : option (gmap string Const)) : option Request :=
  let self := er_self built in
  let constants := default (er_constants self) constants in
  let eq := arg_things (er_base self) in
  transforms_1dr ← const_transforms constants "transforms_1dr";
  profiles ← const_profiles constants "profiles";
  let data := compute_fun eq (er_keys_1dr self) params transforms_1dr profiles ∅ ∅ in
  rho ← const_array constants "rho";
  alpha ← const_array constants "alpha";
  zeta ← const_array constants "zeta";
  iota ← data !! "iota";
  let grid :=
    _get_rtz_grid eq rho alpha zeta "raz"
      (compress (er_grid_1dr built) "rho" iota) params in
  data ← copy_keys_but_R0 (er_keys_1dr self) data grid (er_grid_1dr built);
  quad ← const_quad constants "quad";
  kwargs ← splice_kwargs {["quad" := KQuad quad]} (er_hyperparameters self);
  Some {| rq_name := "effective ripple";
          rq_transforms := get_transforms ["effective ripple"] eq grid true;
          rq_profiles := profiles; rq_data := data; rq_kwargs := kwargs;
          rq_grid := grid |}.

(** [EffectiveRipple.compute] *)
Definition EffectiveRipple_compute (built : EffectiveRippleBuilt) (params : Params)
    (constants : option (gmap string Const)) : option (list float) :=
  rq ← EffectiveRipple_request built params constants;
  v ← compute_fun (arg_things (er_base (er_self built))) [rq_name rq] params
         (rq_transforms rq) (rq_profiles rq) (rq_data rq) (rq_kwargs rq)
       !! "effective ripple";
  Some (compress (rq_grid rq) "rho" v).

(** ** Statements of the kernel in closed form *)

(** Two 2-d arrays of one shape. *)
Definition same_shape (H I : list (list float)) : Prop :=
  Forall2 (λ h i : list float, length h = length i) H I.

(** The sum over the wells of one pitch of H²/I, and the weighted sum of
    these over the pitch nodes, written out with plain zips. *)
Definition sum_over_wells (Hp Ip : list float) : float :=
  array_sum (zip_with (λ h i, safediv (integer_pow h 2) i) Hp Ip).

Definition pitch_weighted_sum (H I : list (list float)) (nodes weights : list float) :
    float :=
  array_sum
    (zip_with (λ s nw, (s * integer_pow nw.1 (-3) * nw.2)%float)
       (zip_with sum_over_wells H I) (zip nodes weights)).

(** ** Lookup lemmas for the array primitives *)

Lemma mapM_lookup_r {A B : Type} (f : A → option B) l k i y :
  mapM f l = Some k → k !! i = Some y → ∃ x, l !! i = Some x ∧ f x = Some y.
Proof.
  intros Hm Hk. apply mapM_Some in Hm.
  destruct (Forall2_lookup_r _ _ _ _ _ Hm Hk) as (x & ? & ?); eauto.
Qed.

Lemma mapM_lookup_l {A B : Type} (f : A → option B) l k i x :
  mapM f l = Some k → l !! i = Some x → ∃ y, k !! i = Some y ∧ f x = Some y.
Proof.
  intros Hm Hl. apply mapM_Some in Hm.
  destruct (Forall2_lookup_l _ _ _ _ _ Hm Hl) as (y & ? & ?); eauto.
Qed.

Lemma expand_length grid x ys :
  expand grid x = Some ys → length ys = length (inverse_rho_idx grid).
Proof.
  unfold expand. destruct (decide _); [|done].
  intros Hm. by apply length_mapM in Hm.
Qed.

Lemma mean_axis0_lookup f j m :
  mean_axis0 f !! j = Some m →
  m = (array_sum (column j f) / float_of_nat (length f))%float.
Proof.
  unfold mean_axis0. rewrite list_lookup_fmap.
  destruct (seq _ _ !! j) as [j'|] eqn:Hj; [|done].
  apply lookup_seq in Hj as [-> _]. by intros [= <-].
Qed.

Lemma imap_lookup {T U : Type} (f : gmap string T → option U) xs ys i y :
  imap f xs = Some ys → ys !! i = Some y → f (slice i xs) = Some y.
Proof.
  unfold imap. destruct (axis0_len xs) as [n|]; [simpl|done].
  intros Hm Hy.
  destruct (mapM_lookup_r _ _ _ _ _ Hm Hy) as (i' & Hi & Hf).
  apply lookup_seq in Hi as [-> _]. done.
Qed.

(** ** The reported effective ripple *)

(** C1: on every input that holds the stored quantity "effective ripple 3/2",
    [_effective_ripple] succeeds, leaves the stored quantity untouched and
    reports under "effective ripple" an array of the same shape whose entry
    at every position is the stored entry raised to the power 2/3. *)
Theorem effective_ripple_is_two_thirds_power (data : gmap string ndarray) (e : ndarray) :
  data !! "effective ripple 3/2" = Some e →
  ∃ data' r,
    _effective_ripple data = Some data' ∧
    data' !! "effective ripple 3/2" = Some e ∧
    data' !! "effective ripple" = Some r ∧
    length (entries r) = length (entries e) ∧
    ∀ i x, entries e !! i = Some x →
           entries r !! i = Some (pow x (2 / 3)%float).
Proof.
  intros He. unfold _effective_ripple. rewrite He. simpl.
  eexists _, _. split; [done|].
  split; [by rewrite lookup_insert_ne|].
  split; [by rewrite lookup_insert_eq|].
  destruct e as [x0|xs]; simpl.
  - split; [done|]. by intros [|i] x [= <-].
  - split; [by rewrite length_fmap|].
    intros i x Hx. by rewrite list_lookup_fmap, Hx.
Qed.

(** ** The effective-ripple kernel *)

Lemma broadcast_axis_zip {A B C : Type} (op : A → B → option C) (g : A → B → C) xs ys :
  Forall2 (λ x y, op x y = Some (g x y)) xs ys →
  broadcast_axis op xs ys = Some (zip_with g xs ys).
Proof.
  intros HF. unfold broadcast_axis.
  rewrite decide_True by (by eapply Forall2_length).
  apply mapM_Some. induction HF; simpl; constructor; auto.
Qed.

Lemma ew2_1d_zip op xs ys :
  length xs = length ys → ew2_1d op xs ys = Some (zip_with op xs ys).
Proof.
  intros Hlen. apply broadcast_axis_zip.
  revert ys Hlen. induction xs as [|x xs IH]; intros [|y ys] Hlen;
    simplify_eq/=; constructor; auto.
Qed.

Lemma ew2_2d_zip op H I :
  same_shape H I → ew2_2d op H I = Some (zip_with (zip_with op) H I).
Proof.
  intros Hs. apply broadcast_axis_zip.
  induction Hs; constructor; auto using ew2_1d_zip.
Qed.

Lemma same_shape_ew1_2d f H I : same_shape H I → same_shape (ew1_2d f H) I.
Proof.
  unfold same_shape, ew1_2d. intros Hs.
  induction Hs; simpl; constructor; auto. by rewrite length_fmap.
Qed.

Lemma well_terms_zip H I :
  same_shape H I →
  well_terms H I =
    Some (zip_with (zip_with (λ h i, safediv (integer_pow h 2) i)) H I).
Proof.
  intros Hs. unfold well_terms.
  rewrite ew2_2d_zip by (by apply same_shape_ew1_2d).
  f_equal. unfold ew1_2d. rewrite zip_with_fmap_l.
  apply zip_with_ext; [|done..]. intros h i. by rewrite zip_with_fmap_l.
Qed.

Lemma pitch_sum_spec H I nodes weights :
  same_shape H I → length H = length nodes → length weights = length nodes →
  pitch_sum H I nodes weights = Some (pitch_weighted_sum H I nodes weights).
Proof.
  intros Hs HH Hw. unfold pitch_sum. rewrite well_terms_zip by done. simpl.
  assert (length I = length H) as HI by (symmetry; by eapply Forall2_length).
  rewrite ew2_1d_zip; simpl.
  2:{ unfold sum_last_axis. rewrite !length_fmap, length_zip_with. lia. }
  rewrite ew2_1d_zip; simpl.
  2:{ unfold sum_last_axis. rewrite length_zip_with, !length_fmap, length_zip_with. lia. }
  f_equal. unfold pitch_weighted_sum, sum_last_axis. f_equal.
  apply list_eq. intros p.
  rewrite !lookup_zip_with, !list_lookup_fmap, !lookup_zip_with.
  destruct (H !! p) as [Hp|]; [|done]; simpl.
  destruct (I !! p) as [Ip|]; [|done]; simpl.
  destruct (nodes !! p) as [x|]; [|done]; simpl.
  by destruct (weights !! p) as [w|].
Qed.

(** C2: when the bounce integrator returns the two tables H and I, of one
    shape with a row per pitch node, [eps_32] returns the sum over the pitch
    nodes of (the sum over the wells of H²/I at that node) times (the node to
    the power −3) times (the quadrature weight of the node).  The node is the
    value stored under "pitch_inv". *)
Theorem eps_32_weights_pitch_sum (grid : Grid) (quad : Quad)
    (num_well : option nat) (batch : bool) (data : gmap string (list float))
    (pitch_inv weight : list float) (H I : list (list float)) :
  data !! "pitch_inv" = Some pitch_inv →
  data !! "pitch_inv weight" = Some weight →
  (let bounce := Bounce1D_new grid data quad in
   Bounce1D_integrate bounce [dH; dI] pitch_inv data "|grad(rho)|*kappa_g"
     (Bounce1D_points bounce pitch_inv num_well) batch) = [H; I] →
  same_shape H I →
  length H = length pitch_inv →
  length weight = length pitch_inv →
  eps_32 grid quad num_well batch data
  = Some (pitch_weighted_sum H I pitch_inv weight).
Proof.
  intros Hp Hw Hint Hs HH Hlen. unfold eps_32. rewrite Hp. simpl.
  simpl in Hint. rewrite Hint, Hw. simpl.
  by apply pitch_sum_spec.
Qed.

(** C4: in the table [safediv(H**2, I)] of [eps_32], the entry of every
    well whose measure integral I is zero is exactly zero, whatever H is
    there (a NaN or an infinity included), and so is not a NaN. *)
Theorem zero_measure_well_contributes_zero (H I : list (list float))
    (p w : nat) (Ip : list float) (i0 : float) :
  same_shape H I →
  I !! p = Some Ip →
  Ip !! w = Some i0 →
  (i0 =? 0)%float = true →
  ∃ q qp c,
    well_terms H I = Some q ∧ q !! p = Some qp ∧ qp !! w = Some c ∧
    c = 0%float ∧ PrimFloat.is_nan c = false.
Proof.
  intros Hs HI Hw Hz.
  destruct (Forall2_lookup_r _ _ _ _ _ Hs HI) as (Hp & HH & Hlen).
  assert (is_Some (Hp !! w)) as [h Hh].
  { apply lookup_lt_is_Some. rewrite Hlen. by eapply lookup_lt_Some. }
  eexists _, _, _. split; [by apply well_terms_zip|].
  split; [by rewrite lookup_zip_with, HH, HI|].
  split; [by rewrite lookup_zip_with, Hh, Hw|].
  unfold safediv. by rewrite Hz.
Qed.

(** ** The sweep over field lines and flux surfaces *)

Lemma axis0_len_lookup {T : Type} (x : gmap string (list T)) n k v :
  axis0_len x = Some n → x !! k = Some v → length v = n.
Proof.
  unfold axis0_len. destruct (map_to_list x) as [|[k0 v0] l]; [done|].
  destruct (decide _) as [HF|]; [|done]. intros [= <-] Hk.
  exact (proj1 (map_Forall_lookup _ _) HF k v Hk).
Qed.

Lemma imap_length {T U : Type} (f : gmap string T → option U) xs ys :
  imap f xs = Some ys → axis0_len xs = Some (length ys).
Proof.
  unfold imap. destruct (axis0_len xs) as [n|]; [simpl|done].
  intros Hm. apply length_mapM in Hm. rewrite length_seq in Hm. by subst.
Qed.

Lemma compute_out_lookup {U : Type} (fun_ : gmap string (list float) → option U)
    fun_data data grid num_pitch simp out a r row v :
  _compute_out fun_ fun_data data grid num_pitch simp = Some out →
  out !! a = Some row → row !! r = Some v →
  ∃ q fd,
    pitch_quad data grid num_pitch simp = Some q ∧
    fun_data_reshaped fun_data data grid = Some fd ∧
    length row = length q.1 ∧
    fun_ (fun_arg q fd a r) = Some v.
Proof.
  unfold _compute_out. intros Hout Ha Hr.
  destruct (pitch_quad _ _ _ _) as [q|]; [simpl in Hout|done].
  destruct (fun_data_reshaped _ _ _) as [fd|]; [simpl in Hout|done].
  exists q, fd. do 2 (split; [done|]).
  pose proof (imap_lookup _ _ _ _ _ Hout Ha) as Hrow. unfold foreach_rho in Hrow.
  split.
  - apply imap_length in Hrow. symmetry.
    apply (axis0_len_lookup _ _ "pitch_inv" _ Hrow).
    rewrite lookup_insert_ne by done. by rewrite lookup_insert_eq.
  - exact (imap_lookup _ _ _ _ _ Hrow Hr).
Qed.

Lemma column_Forall2 s (out : list (list float)) :
  Forall (λ row, s < length row) out →
  Forall2 (λ row c, row !! s = Some c) out (column s out).
Proof.
  unfold column. induction 1 as [|row out Hrow _ IH]; [constructor|].
  apply lookup_lt_is_Some in Hrow as [c Hc]. simpl. rewrite Hc.
  by constructor.
Qed.

Lemma mean_axis0_lookup_lt (f : list (list float)) j m row :
  mean_axis0 f !! j = Some m → f !! 0 = Some row → j < length row.
Proof.
  unfold mean_axis0. intros Hm H0.
  apply lookup_lt_Some in Hm. rewrite length_fmap, length_seq in Hm.
  destruct f as [|row' f]; [done|]. by simplify_eq/=.
Qed.

Lemma fun_arg_pitch_inv q fd a r : fun_arg q fd a r !! "pitch_inv" = q.1 !! r.
Proof.
  unfold fun_arg, slice. rewrite lookup_omap.
  rewrite lookup_insert_ne by done. by rewrite lookup_insert_eq.
Qed.

Lemma fun_arg_pitch_inv_weight q fd a r :
  fun_arg q fd a r !! "pitch_inv weight" = q.2 !! r.
Proof. unfold fun_arg, slice. rewrite lookup_omap. by rewrite lookup_insert_eq. Qed.

Lemma expand_Some grid x :
  length x = num_rho grid →
  Forall (λ s, s < num_rho grid) (inverse_rho_idx grid) →
  is_Some (expand grid x).
Proof.
  intros Hlen Hwf. unfold expand. rewrite decide_True by done.
  apply mapM_is_Some. eapply Forall_impl; [exact Hwf|].
  intros s Hs. apply lookup_lt_is_Some. by rewrite Hlen.
Qed.

Lemma expand_lookup_l grid x ys i s :
  expand grid x = Some ys → inverse_rho_idx grid !! i = Some s →
  ∃ y, ys !! i = Some y ∧ x !! s = Some y.
Proof.
  unfold expand. destruct (decide _); [|done].
  intros Hm Hs. exact (mapM_lookup_l _ _ _ _ _ Hm Hs).
Qed.

Lemma fun_arg_other q fd a r (k : string) :
  k ≠ "pitch_inv" → k ≠ "pitch_inv weight" →
  fun_arg q fd a r !! k
  = (fd !! k ≫= (λ t : list (list (list float)), t !! a))
      ≫= (λ plane : list (list float), plane !! r).
Proof.
  intros H1 H2. unfold fun_arg, slice. rewrite lookup_omap.
  rewrite !lookup_insert_ne by done. by rewrite lookup_omap.
Qed.

(** The table [out] is full: a row per plane of the reshaped arrays, in
    every row an entry per row of the quadrature, and every entry is the
    result of [fun] on the dict of that field line and flux surface. *)
Lemma compute_out_entries {U : Type} (fun_ : gmap string (list float) → option U)
    fun_data data grid num_pitch simp out q fd :
  _compute_out fun_ fun_data data grid num_pitch simp = Some out →
  pitch_quad data grid num_pitch simp = Some q →
  fun_data_reshaped fun_data data grid = Some fd →
  axis0_len fd = Some (length out) ∧
  Forall (λ row, length row = length q.1) out ∧
  ∀ a r, a < length out → r < length q.1 →
    ∃ row v nodes weights,
      out !! a = Some row ∧ row !! r = Some v ∧
      q.1 !! r = Some nodes ∧ q.2 !! r = Some weights ∧
      fun_ (fun_arg q fd a r) = Some v.
Proof.
  intros Hout Hq Hfd. unfold _compute_out in Hout. rewrite Hq, Hfd in Hout.
  simpl in Hout.
  assert (∀ a row, out !! a = Some row →
            length row = length q.1 ∧ length q.2 = length q.1 ∧
            ∀ r v, row !! r = Some v → fun_ (fun_arg q fd a r) = Some v)
    as Hrow.
  { intros a row Ha.
    pose proof (imap_lookup _ _ _ _ _ Hout Ha) as Hr. unfold foreach_rho in Hr.
    pose proof (imap_length _ _ _ Hr) as Hlen.
    assert (length q.1 = length row) as H1.
    { apply (axis0_len_lookup _ _ "pitch_inv" _ Hlen).
      rewrite lookup_insert_ne by done. by rewrite lookup_insert_eq. }
    assert (length q.2 = length row) as H2.
    { apply (axis0_len_lookup _ _ "pitch_inv weight" _ Hlen).
      by rewrite lookup_insert_eq. }
    split; [done|]. split; [congruence|].
    intros r v Hv. exact (imap_lookup _ _ _ _ _ Hr Hv). }
  split; [exact (imap_length _ _ _ Hout)|]. split.
  { apply Forall_lookup. intros a row Ha. by destruct (Hrow a row Ha). }
  intros a r Ha Hr.
  destruct (lookup_lt_is_Some_2 out a Ha) as [row Hrow_a].
  destruct (Hrow a row Hrow_a) as (H1 & H2 & Hfun).
  destruct (lookup_lt_is_Some_2 row r) as [v Hv]; [by rewrite H1|].
  destruct (lookup_lt_is_Some_2 q.1 r Hr) as [nodes Hn].
  destruct (lookup_lt_is_Some_2 q.2 r) as [weights Hw]; [by rewrite H2|].
  exists row, v, nodes, weights. do 4 (split; [done|]). by apply Hfun.
Qed.

(** C7: the pitch quadrature of [_compute] is
    [get_pitch_inv_quad] applied to the compressed per-surface minimum and
    maximum of |B| (and to the two hyperparameters), so any data with the
    same compressed minimum and maximum gives the same quadrature.  The table
    [out] has a row for every field line (every plane of the reshaped
    arrays) and in each row an entry for every flux surface (every row of
    the quadrature); the entry of field line [a] and flux surface [r] is the
    result of [fun] on a dict that holds row [r] of the nodes under
    "pitch_inv", row [r] of the weights under "pitch_inv weight", whatever
    the field line, and under every other key the data of field line [a] on
    surface [r]. *)
Theorem pitch_quadrature_shared_on_surface {U : Type}
    (fun_ : gmap string (list float) → option U)
    (fun_data data : gmap string ndarray) (grid : Grid) (num_pitch : nat)
    (simp : bool) (out : list (list U)) (min_B max_B : ndarray) :
  data !! "min_tz |B|" = Some min_B →
  data !! "max_tz |B|" = Some max_B →
  _compute_out fun_ fun_data data grid num_pitch simp = Some out →
  let q := get_pitch_inv_quad (compress grid "rho" min_B)
             (compress grid "rho" max_B) num_pitch simp in
  (∀ (data2 : gmap string ndarray) min_B2 max_B2,
      data2 !! "min_tz |B|" = Some min_B2 →
      data2 !! "max_tz |B|" = Some max_B2 →
      compress grid "rho" min_B2 = compress grid "rho" min_B →
      compress grid "rho" max_B2 = compress grid "rho" max_B →
      pitch_quad data2 grid num_pitch simp = Some q) ∧
  ∃ fd,
    fun_data_reshaped fun_data data grid = Some fd ∧
    axis0_len fd = Some (length out) ∧
    Forall (λ row, length row = length q.1) out ∧
    ∀ a r, a < length out → r < length q.1 →
      ∃ row v nodes weights,
        out !! a = Some row ∧ row !! r = Some v ∧
        q.1 !! r = Some nodes ∧ q.2 !! r = Some weights ∧
        fun_ (fun_arg q fd a r) = Some v ∧
        fun_arg q fd a r !! "pitch_inv" = Some nodes ∧
        fun_arg q fd a r !! "pitch_inv weight" = Some weights ∧
        ∀ k : string, k ≠ "pitch_inv" → k ≠ "pitch_inv weight" →
          fun_arg q fd a r !! k
          = (fd !! k ≫= (λ t : list (list (list float)), t !! a))
              ≫= (λ plane : list (list float), plane !! r).
Proof.
  intros Hmin Hmax Hout q. split.
  - intros data2 m2 M2 Hm2 HM2 Em EM. unfold pitch_quad.
    rewrite Hm2, HM2. simpl. by rewrite Em, EM.
  - assert (pitch_quad data grid num_pitch simp = Some q) as Hq.
    { unfold pitch_quad. by rewrite Hmin, Hmax. }
    pose proof Hout as Hout'. unfold _compute_out in Hout'.
    rewrite Hq in Hout'. simpl in Hout'.
    destruct (fun_data_reshaped fun_data data grid) as [fd|] eqn:Hfd; [|done].
    exists fd. split; [done|].
    destruct (compute_out_entries _ _ _ _ _ _ _ _ _ Hout Hq Hfd)
      as (Hlen & Hrows & Hent).
    split; [done|]. split; [done|]. intros a r Ha Hr.
    destruct (Hent a r Ha Hr) as (row & v & nodes & weights & Hrow & Hv & Hn & Hw & Hfun).
    exists row, v, nodes, weights. do 5 (split; [done|]).
    split; [by rewrite fun_arg_pitch_inv|].
    split; [by rewrite fun_arg_pitch_inv_weight|].
    intros k Hk1 Hk2. by apply fun_arg_other.
Qed.

Lemma compute_out_rows {U : Type} (fun_ : gmap string (list float) → option U)
    fun_data data grid num_pitch simp out q a row :
  _compute_out fun_ fun_data data grid num_pitch simp = Some out →
  pitch_quad data grid num_pitch simp = Some q →
  out !! a = Some row → length row = length q.1.
Proof.
  unfold _compute_out. intros Hout Hq Ha. rewrite Hq in Hout. simpl in Hout.
  destruct (fun_data_reshaped _ _ _) as [fd|]; [simpl in Hout|done].
  pose proof (imap_lookup _ _ _ _ _ Hout Ha) as Hrow.
  apply imap_length in Hrow. symmetry.
  apply (axis0_len_lookup _ _ "pitch_inv" _ Hrow).
  rewrite lookup_insert_ne by done. by rewrite lookup_insert_eq.
Qed.

Lemma compute_reduced_lookup (fun_ : gmap string (list float) → option float)
    fun_data data grid num_pitch simp r fd :
  _compute fun_ fun_data data grid num_pitch simp true = Some (r, fd) →
  ∃ x out,
    r = Reduced x ∧
    _compute_out fun_ fun_data data grid num_pitch simp = Some out ∧
    fun_data_reshaped fun_data data grid = Some fd ∧
    length x = length (inverse_rho_idx grid) ∧
    ∀ i s, inverse_rho_idx grid !! i = Some s →
      Forall2 (λ row c, row !! s = Some c) out (column s out) ∧
      x !! i = Some (array_sum (column s out) / float_of_nat (length out))%float.
Proof.
  unfold _compute. intros Hc.
  destruct (_compute_out _ _ _ _ _ _) as [out|] eqn:Hout; [simpl in Hc|done].
  destruct (fun_data_reshaped _ _ _) as [fd'|]; [simpl in Hc|done].
  destruct (expand grid (_alpha_mean out)) as [x|] eqn:Hx; [|done].
  simplify_eq/=. exists x, out. do 3 (split; [done|]).
  split; [by eapply expand_length|].
  intros i s Hs.
  destruct (expand_lookup_l _ _ _ _ _ Hx Hs) as (y & Hy & Hm).
  unfold _alpha_mean in Hm. split.
  - apply column_Forall2. apply Forall_lookup. intros a row Ha.
    destruct (out !! 0) as [row0|] eqn:H0.
    2:{ apply lookup_ge_None in H0. apply lookup_lt_Some in Ha. lia. }
    pose proof (mean_axis0_lookup_lt _ _ _ _ Hm H0) as Hlt.
    pose proof Hout as Hout'. unfold _compute_out in Hout'.
    destruct (pitch_quad _ _ _ _) as [q|] eqn:Hq; [|done].
    by rewrite (compute_out_rows _ _ _ _ _ _ _ _ _ _ Hout Hq Ha),
      <- (compute_out_rows _ _ _ _ _ _ _ _ _ _ Hout Hq H0).
  - rewrite Hy. f_equal. by apply mean_axis0_lookup.
Qed.

(** C5: with [reduce] set, [_compute] returns one value per grid node, and
    the value at a node of flux surface [s] is the sum of the results of all
    field lines on that surface divided by the number of field lines: every
    field line counts once, whatever its label α. *)
Theorem compute_reduces_by_uniform_mean
    (fun_ : gmap string (list float) → option float)
    (fun_data data : gmap string ndarray) (grid : Grid) (num_pitch : nat)
    (simp : bool) (x : list float) (fd : gmap string (list (list (list float)))) :
  _compute fun_ fun_data data grid num_pitch simp true = Some (Reduced x, fd) →
  ∃ out,
    _compute_out fun_ fun_data data grid num_pitch simp = Some out ∧
    length x = length (inverse_rho_idx grid) ∧
    ∀ i s, inverse_rho_idx grid !! i = Some s →
      ∃ col,
        Forall2 (λ row c, row !! s = Some c) out col ∧
        x !! i = Some (array_sum col / float_of_nat (length out))%float.
Proof.
  intros Hc.
  destruct (compute_reduced_lookup _ _ _ _ _ _ _ _ Hc)
    as (x' & out & [= <-] & Hout & _ & Hlen & Hx).
  exists out. do 2 (split; [done|]).
  intros i s Hs. exists (column s out). by apply Hx.
Qed.

(** C6: when the reshaped table of 1/B^ζ has a plane per field line and in
    every plane a row per flux surface, [_fieldline_length] stores under
    "fieldline length" one value per grid node; at a node of flux surface [s]
    it is the absolute value of the mean over the field lines of the Simpson
    quadrature of the ζ-samples of 1/B^ζ against the ζ nodes. *)
Theorem fieldline_length_is_mean_simpson (data : gmap string ndarray) (grid : Grid)
    (Bz : ndarray) :
  data !! "B^zeta" = Some Bz →
  let y := meshgrid_reshape grid (ew1 (PrimFloat.div 1) Bz) "arz" in
  let zeta := compress grid "zeta" (nodes_zeta grid) in
  y ≠ [] →
  Forall (λ plane, length plane = num_rho grid) y →
  Forall (λ s, s < num_rho grid) (inverse_rho_idx grid) →
  ∃ L,
    _fieldline_length data grid = Some (<["fieldline length" := Array L]> data) ∧
    length L = length (inverse_rho_idx grid) ∧
    ∀ i s, inverse_rho_idx grid !! i = Some s →
      ∃ col,
        Forall2 (λ plane c, ∃ ys, plane !! s = Some ys ∧ c = simpson ys zeta) y col ∧
        L !! i = Some (PrimFloat.abs (array_sum col / float_of_nat (length y)))%float.
Proof.
  intros HBz y zeta Hne Hrect Hwf. unfold _fieldline_length. rewrite HBz. simpl.
  fold y zeta.
  set (L_ra := (λ row : list (list float), (λ ys, simpson ys zeta) <$> row) <$> y).
  assert (length (PrimFloat.abs <$> _alpha_mean L_ra) = num_rho grid) as Hlen.
  { unfold _alpha_mean, mean_axis0, L_ra.
    rewrite !length_fmap, length_seq.
    destruct y as [|plane y']; [done|]. simpl. rewrite length_fmap.
    by inversion Hrect. }
  destruct (expand_Some grid _ Hlen Hwf) as [L HL].
  rewrite HL. simpl. exists L. split; [done|].
  split; [by eapply expand_length|].
  intros i s Hs.
  destruct (expand_lookup_l _ _ _ _ _ HL Hs) as (v & Hv & Hm).
  rewrite list_lookup_fmap in Hm.
  destruct (_alpha_mean L_ra !! s) as [m|] eqn:Em; [|done].
  apply mean_axis0_lookup in Em. simplify_eq/=.
  exists (column s L_ra). split.
  - assert (Forall2 (λ row c, row !! s = Some c) L_ra (column s L_ra)) as HF.
    { apply column_Forall2. unfold L_ra. apply Forall_fmap.
      eapply Forall_impl; [exact Hrect|]. intros plane Hp. simpl.
      rewrite length_fmap, Hp.
      eapply Forall_lookup_1 in Hwf; [exact Hwf|exact Hs]. }
    unfold L_ra in HF. apply Forall2_fmap_l in HF.
    eapply Forall2_impl; [exact HF|]. intros plane c Hc. simpl in Hc.
    rewrite list_lookup_fmap in Hc.
    destruct (plane !! s) as [ys|]; [|done]. simplify_eq/=. eauto.
  - rewrite Hv. unfold L_ra. by rewrite length_fmap.
Qed.

(** ** The effective ripple to the power 3/2 *)


Lemma copy_required_other names (data fd fd' : gmap string ndarray) k :
  copy_required names data fd = Some fd' → k ∉ names → fd' !! k = fd !! k.
Proof.
  revert fd. induction names as [|n names IH]; intros fd Hc Hk; simpl in Hc.
  - by simplify_eq.
  - destruct (data !! n) as [v|]; [simpl in Hc|done].
    apply not_elem_of_cons in Hk as [Hne Hk].
    rewrite (IH _ Hc Hk). by rewrite lookup_insert_ne.
Qed.



(** ** Evaluations do not depend on earlier evaluations *)

Lemma dep_declared k :
  k ∈ ["min_tz |B|"; "max_tz |B|"; "kappa_g"; "R0"; "|grad(rho)|";
       "<|grad(rho)|>"; "fieldline length"] →
  k ∈ epsilon_32_deps.
Proof. intros Hk. unfold epsilon_32_deps. apply elem_of_app. by left. Qed.

Lemma required_declared k : k ∈ required_names → k ∈ epsilon_32_deps.
Proof. intros Hk. unfold epsilon_32_deps. apply elem_of_app. by right. Qed.

Ltac declared :=
  apply dep_declared;
  repeat first [apply list_elem_of_here | apply list_elem_of_further].

Lemma copy_required_ext names (data1 data2 fd : gmap string ndarray) :
  (∀ k, k ∈ names → data1 !! k = data2 !! k) →
  copy_required names data1 fd = copy_required names data2 fd.
Proof.
  revert fd. induction names as [|n names IH]; intros fd Hk; [done|]. simpl.
  rewrite (Hk n) by constructor.
  destruct (data2 !! n) as [v|]; [simpl|done].
  apply IH. intros k Hin. apply Hk. by constructor.
Qed.

Lemma compute_ext fun_ fun_data (data1 data2 : gmap string ndarray) grid
    num_pitch simp reduce :
  (∀ k, k ∈ epsilon_32_deps → data1 !! k = data2 !! k) →
  _compute fun_ fun_data data1 grid num_pitch simp reduce
  = _compute fun_ fun_data data2 grid num_pitch simp reduce.
Proof.
  intros Hk. unfold _compute, _compute_out, pitch_quad, fun_data_reshaped.
  rewrite (Hk "min_tz |B|"), (Hk "max_tz |B|") by declared.
  rewrite (copy_required_ext _ data1 data2); [done|].
  intros k Hin. by apply Hk, required_declared.
Qed.

Lemma epsilon_32_value_ext grid (data1 data2 : gmap string ndarray) kwargs :
  (∀ k, k ∈ epsilon_32_deps → data1 !! k = data2 !! k) →
  epsilon_32_value grid data1 kwargs = epsilon_32_value grid data2 kwargs.
Proof.
  intros Hk. unfold epsilon_32_value.
  rewrite (Hk "max_tz |B|"), (Hk "R0"), (Hk "<|grad(rho)|>"), (Hk "|grad(rho)|"),
    (Hk "kappa_g"), (Hk "fieldline length")
    by declared.
  destruct (kw_quad kwargs) as [quad|]; [simpl|done].
  destruct (kw_int_or_none kwargs "num_well") as [num_well|]; [simpl|done].
  destruct (kw_bool kwargs "batch" true) as [batch|]; [simpl|done].
  destruct (data2 !! "max_tz |B|") as [B0|]; [simpl|done].
  destruct (data2 !! "R0") as [R0|]; [simpl|done].
  destruct (data2 !! "<|grad(rho)|>") as [g|]; [simpl|done].
  destruct (prefactor B0 R0 g) as [c|]; [simpl|done].
  destruct (data2 !! "|grad(rho)|") as [grad_rho|]; [simpl|done].
  destruct (data2 !! "kappa_g") as [kappa_g|]; [simpl|done].
  destruct (ew2 PrimFloat.mul grad_rho kappa_g) as [gk|]; [simpl|done].
  destruct (kw_int kwargs "num_pitch" 50) as [num_pitch|]; [simpl|done].
  by rewrite (compute_ext _ _ data1 data2).
Qed.

(** C9: the value that [_epsilon_32] computes depends on the data only
    through the declared dependencies; the call changes the data dict at the
    key "effective ripple 3/2" and nowhere else; and evaluating again on the
    dict that an evaluation left behind returns the same dict.  The output
    key is assumed not to be one of the integrator's required names. *)
Theorem epsilon_32_pure (grid : Grid) (kwargs : gmap string KwVal) :
  "effective ripple 3/2" ∉ required_names →
  (∀ data1 data2 : gmap string ndarray,
     (∀ k, k ∈ epsilon_32_deps → data1 !! k = data2 !! k) →
     epsilon_32_value grid data1 kwargs = epsilon_32_value grid data2 kwargs ∧
     ((λ d : gmap string ndarray, d !! "effective ripple 3/2")
        <$> _epsilon_32 grid data1 kwargs)
     = ((λ d : gmap string ndarray, d !! "effective ripple 3/2")
        <$> _epsilon_32 grid data2 kwargs)) ∧
  (∀ data data' : gmap string ndarray,
     _epsilon_32 grid data kwargs = Some data' →
     (∀ k, k ≠ "effective ripple 3/2" → data' !! k = data !! k) ∧
     data' !! "effective ripple 3/2" = epsilon_32_value grid data kwargs ∧
     _epsilon_32 grid data' kwargs = Some data').
Proof.
  intros Hout. split.
  - intros data1 data2 Hk.
    pose proof (epsilon_32_value_ext grid data1 data2 kwargs Hk) as Hv.
    split; [done|]. unfold _epsilon_32. rewrite Hv.
    destruct (epsilon_32_value grid data2 kwargs); [simpl|done].
    by rewrite !lookup_insert_eq.
  - intros data data' He. unfold _epsilon_32 in He.
    destruct (epsilon_32_value grid data kwargs) as [e|] eqn:Hv; [|done].
    simpl in He. injection He as <-.
    split; [intros k Hk; by rewrite lookup_insert_ne|].
    split; [by rewrite lookup_insert_eq|].
    unfold _epsilon_32.
    rewrite (epsilon_32_value_ext grid _ data kwargs), Hv; simpl.
    + by rewrite insert_insert_eq.
    + intros k Hk. apply lookup_insert_ne. intros <-.
      unfold epsilon_32_deps in Hk. apply elem_of_app in Hk as [Hk|Hk]; [|done].
      repeat (apply elem_of_cons in Hk as [Hk|Hk]; [discriminate Hk|]).
      by apply elem_of_nil in Hk.
Qed.

(** ** The objectives *)

Lemma splice_kwargs_lookup k1 k2 k (key : string) :
  splice_kwargs k1 k2 = Some k → k2 !! key = None → k !! key = k1 !! key.
Proof.
  unfold splice_kwargs. destruct (decide _); [|done].
  intros [= <-] Hk. by apply lookup_union_l.
Qed.

(** C10: when neither a target nor bounds are given, both constructors hand
    the scalar target 0 to the base class, and broadcast over the requested
    flux surfaces it is 0 on every one of them. *)
Theorem target_defaults_to_zero (a : ObjectiveArgs) (b : BounceArgs) (Nemov : bool) :
  arg_target a = None →
  arg_bounds a = None →
  let er := EffectiveRipple_init a b in
  let gc := GammaC_init a b Nemov in
  arg_target (er_base er) = Some (TScalar 0) ∧
  arg_target (gc_base gc) = Some (TScalar 0) ∧
  er_dim_f er = length (entries (arg_rho b)) ∧
  gc_dim_f gc = length (entries (arg_rho b)) ∧
  ∀ k, k < length (entries (arg_rho b)) →
    (t ← arg_target (er_base er); ts ← broadcast_target t (er_dim_f er); ts !! k)
    = Some 0%float ∧
    (t ← arg_target (gc_base gc); ts ← broadcast_target t (gc_dim_f gc); ts !! k)
    = Some 0%float.
Proof.
  intros Ht Hb er gc. simpl. unfold default_target. rewrite Ht, Hb.
  do 4 (split; [done|]). intros k Hk. simpl.
  by rewrite lookup_replicate_2.
Qed.

Lemma GammaC_build_init a b Nemov :
  ∃ self,
    GammaC_build (GammaC_init a b Nemov) = Some self ∧
    gc_key self = (if Nemov then "Gamma_c" else "Gamma_c Velasco") ∧
    arg_things (gc_base self) = arg_things a ∧
    gc_hyperparameters self !! "quad2" = None ∧
    gc_hyperparameters self !! "quad" = None ∧
    gc_constants self !! "quad2"
    = (if Nemov then Some (CQuad (chebgauss2 (arg_num_quad b))) else None).
Proof.
  unfold GammaC_build.
  assert (const_array (gc_constants (GammaC_init a b Nemov)) "rho"
          = Some (entries (arg_rho b))) as ->.
  { unfold const_array. simpl. rewrite !lookup_insert_ne by done.
    by rewrite lookup_insert_eq. }
  assert (pop_int (gc_hyperparameters (GammaC_init a b Nemov)) "num_quad"
          = Some (arg_num_quad b,
                  delete "num_quad" (gc_hyperparameters (GammaC_init a b Nemov))))
    as ->.
  { unfold pop_int. simpl. rewrite !lookup_insert_ne by done.
    by rewrite lookup_singleton_eq. }
  eexists. split; [reflexivity|]. cbn [gc_key gc_base gc_hyperparameters
    gc_constants GammaC_init arg_things fst snd mbind option_bind].
  split; [done|]. split; [done|].
  split.
  { rewrite lookup_delete_ne by done. rewrite !lookup_insert_ne by done.
    by rewrite lookup_singleton_ne. }
  split.
  { rewrite lookup_delete_ne by done. rewrite !lookup_insert_ne by done.
    by rewrite lookup_singleton_ne. }
  rewrite !lookup_insert_ne by done. destruct Nemov.
  - rewrite decide_True by done. by rewrite lookup_insert_eq.
  - rewrite decide_False by done. rewrite !lookup_insert_ne by done.
    by rewrite lookup_singleton_ne.
Qed.

Lemma GammaC_request_inv self params rq :
  GammaC_request self params None = Some rq →
  gc_hyperparameters self !! "quad2" = None →
  rq_name rq = gc_key self ∧
  rq_kwargs rq !! "quad2"
  = (if decide (gc_key self = "Gamma_c")
     then KQuad <$> const_quad (gc_constants self) "quad2" else None).
Proof.
  unfold GammaC_request. cbn [default]. intros Hrq Hh.
  destruct (const_transforms _ _) as [tr|]; [simpl in Hrq|done].
  destruct (const_profiles _ _) as [pr|]; [simpl in Hrq|done].
  destruct (const_array _ "rho") as [rho|]; [simpl in Hrq|done].
  destruct (const_array _ "alpha") as [alpha|]; [simpl in Hrq|done].
  destruct (const_array _ "zeta") as [zeta|]; [simpl in Hrq|done].
  destruct (gc_grid_1dr self) as [grid_1dr|]; [simpl in Hrq|done].
  destruct (_ !! "iota") as [iota|]; [simpl in Hrq|done].
  destruct (copy_keys _ _ _ _) as [data|]; [simpl in Hrq|done].
  destruct (decide (gc_key self = "Gamma_c")) as [Hk|Hk].
  - destruct (const_quad _ "quad2") as [q2|]; [simpl in Hrq|done].
    destruct (const_quad _ "quad") as [q|]; [simpl in Hrq|done].
    destruct (splice_kwargs {["quad" := KQuad q]} _) as [k1|] eqn:Hk1;
      [simpl in Hrq|done].
    destruct (splice_kwargs k1 _) as [k2|] eqn:Hk2; [simpl in Hrq|done].
    injection Hrq as <-. simpl. split; [done|].
    rewrite (splice_kwargs_lookup _ _ _ _ Hk2 Hh).
    unfold splice_kwargs in Hk1. destruct (decide _); [|done].
    injection Hk1 as <-. rewrite lookup_union_r by done.
    by rewrite lookup_singleton_eq.
  - simpl in Hrq.
    destruct (const_quad _ "quad") as [q|]; [simpl in Hrq|done].
    destruct (splice_kwargs {["quad" := KQuad q]} _) as [k1|] eqn:Hk1;
      [simpl in Hrq|done].
    destruct (splice_kwargs k1 _) as [k2|] eqn:Hk2; [simpl in Hrq|done].
    injection Hrq as <-. simpl. split; [done|].
    rewrite (splice_kwargs_lookup _ _ _ _ Hk2 Hh).
    unfold splice_kwargs in Hk1. destruct (decide _); [|done].
    injection Hk1 as <-. rewrite lookup_union_r by done.
    by rewrite lookup_empty.
Qed.

(** C8: [GammaC] built with [Nemov] set computes the quantity "Gamma_c":
    [build] stores a [chebgauss2] quadrature under "quad2" and [compute]
    passes it on as the keyword [quad2].  Built with [Nemov] unset it
    computes "Gamma_c Velasco", stores no "quad2" and passes none.  In both
    cases [compute] returns the compressed entry of that name. *)
Theorem GammaC_selects_formulation (a : ObjectiveArgs) (b : BounceArgs) (Nemov : bool) :
  ∃ self,
    GammaC_build (GammaC_init a b Nemov) = Some self ∧
    gc_key self = (if Nemov then "Gamma_c" else "Gamma_c Velasco") ∧
    gc_constants self !! "quad2"
    = (if Nemov then Some (CQuad (chebgauss2 (arg_num_quad b))) else None) ∧
    ∀ params rq,
      GammaC_request self params None = Some rq →
      rq_name rq = gc_key self ∧
      rq_kwargs rq !! "quad2"
      = (if Nemov then Some (KQuad (chebgauss2 (arg_num_quad b))) else None) ∧
      GammaC_compute self params None
      = (v ← compute_fun (arg_things a) [rq_name rq] params (rq_transforms rq)
               (rq_profiles rq) (rq_data rq) (rq_kwargs rq) !! rq_name rq;
         Some (compress (rq_grid rq) "rho" v)).
Proof.
  destruct (GammaC_build_init a b Nemov)
    as (self & Hb & Hkey & Heq & Hh2 & _ & Hc2).
  exists self. do 3 (split; [done|]).
  intros params rq Hrq.
  destruct (GammaC_request_inv _ _ _ Hrq Hh2) as [Hn Hkw].
  split; [done|]. split.
  - rewrite Hkw, Hkey. unfold const_quad. rewrite Hc2. by destruct Nemov.
  - unfold GammaC_compute. rewrite Hrq. simpl. by rewrite Heq, Hn.
Qed.

(** ** Field line length: the sibling quantity and the sign *)

Lemma line_mean_expand (grid : Grid) (y : list (list (list float))) (zeta : list float) :
  y ≠ [] →
  Forall (λ plane, length plane = num_rho grid) y →
  Forall (λ s, s < num_rho grid) (inverse_rho_idx grid) →
  ∃ L,
    expand grid
      (PrimFloat.abs <$> _alpha_mean
         ((λ row : list (list float), (λ ys, simpson ys zeta) <$> row) <$> y))
    = Some L ∧
    length L = length (inverse_rho_idx grid) ∧
    ∀ i s, inverse_rho_idx grid !! i = Some s →
      ∃ col,
        Forall2 (λ plane c, ∃ ys, plane !! s = Some ys ∧ c = simpson ys zeta) y col ∧
        L !! i = Some (PrimFloat.abs (array_sum col / float_of_nat (length y)))%float.
Proof.
  intros Hne Hrect Hwf.
  set (L_ra := (λ row : list (list float), (λ ys, simpson ys zeta) <$> row) <$> y).
  assert (length (PrimFloat.abs <$> _alpha_mean L_ra) = num_rho grid) as Hlen.
  { unfold _alpha_mean, mean_axis0, L_ra.
    rewrite !length_fmap, length_seq.
    destruct y as [|plane y']; [done|]. simpl. rewrite length_fmap.
    by inversion Hrect. }
  destruct (expand_Some grid _ Hlen Hwf) as [L HL].
  exists L. split; [done|]. split; [by eapply expand_length|].
  intros i s Hs.
  destruct (expand_lookup_l _ _ _ _ _ HL Hs) as (v & Hv & Hm).
  rewrite list_lookup_fmap in Hm.
  destruct (_alpha_mean L_ra !! s) as [m|] eqn:Em; [|done].
  apply mean_axis0_lookup in Em. simplify_eq/=.
  exists (column s L_ra). split.
  - assert (Forall2 (λ row c, row !! s = Some c) L_ra (column s L_ra)) as HF.
    { apply column_Forall2. unfold L_ra. apply Forall_fmap.
      eapply Forall_impl; [exact Hrect|]. intros plane Hp. simpl.
      rewrite length_fmap, Hp.
      eapply Forall_lookup_1 in Hwf; [exact Hwf|exact Hs]. }
    unfold L_ra in HF. apply Forall2_fmap_l in HF.
    eapply Forall2_impl; [exact HF|]. intros plane c Hc. simpl in Hc.
    rewrite list_lookup_fmap in Hc.
    destruct (plane !! s) as [ys|]; [|done]. simplify_eq/=. eauto.
  - rewrite Hv. unfold L_ra. by rewrite length_fmap.
Qed.

(** X1: when the reshaped table of 1/(B^ζ·√g) has a plane per field line and
    in every plane a row per flux surface, [_fieldline_length_over_volume]
    leaves the data as it is but for the entry "fieldline length/volume";
    at a grid node of flux surface [s] that entry is the absolute value of
    the mean over the field lines of the Simpson quadrature of the
    ζ-samples of 1/(B^ζ·√g). *)
Theorem fieldline_length_over_volume_is_mean_simpson (data : gmap string ndarray)
    (grid : Grid) (Bz sqrt_g den : ndarray) :
  data !! "B^zeta" = Some Bz →
  data !! "sqrt(g)" = Some sqrt_g →
  ew2 PrimFloat.mul Bz sqrt_g = Some den →
  let y := meshgrid_reshape grid (ew1 (PrimFloat.div 1) den) "arz" in
  let zeta := compress grid "zeta" (nodes_zeta grid) in
  y ≠ [] →
  Forall (λ plane, length plane = num_rho grid) y →
  Forall (λ s, s < num_rho grid) (inverse_rho_idx grid) →
  ∃ G,
    _fieldline_length_over_volume data grid
    = Some (<["fieldline length/volume" := Array G]> data) ∧
    length G = length (inverse_rho_idx grid) ∧
    ∀ i s, inverse_rho_idx grid !! i = Some s →
      ∃ col,
        Forall2 (λ plane c, ∃ ys, plane !! s = Some ys ∧ c = simpson ys zeta) y col ∧
        G !! i = Some (PrimFloat.abs (array_sum col / float_of_nat (length y)))%float.
Proof.
  intros HBz Hg Hden y zeta Hne Hrect Hwf.
  destruct (line_mean_expand grid y zeta Hne Hrect Hwf) as (G & HG & Hlen & Hval).
  exists G. split; [|by split].
  unfold _fieldline_length_over_volume. rewrite HBz, Hg. simpl. rewrite Hden. simpl.
  fold y zeta. by rewrite HG.
Qed.

Lemma abs_not_negative (x : float) : (PrimFloat.abs x <? 0)%float = false.
Proof.
  rewrite FloatAxioms.ltb_spec, FloatAxioms.abs_spec. change (Prim2SF 0) with (S754_zero false).
  by destruct (Prim2SF x) as [s|s| |s m e].
Qed.

Lemma expand_Forall (P : float → Prop) grid x ys :
  expand grid x = Some ys → Forall P x → Forall P ys.
Proof.
  intros He HP. apply Forall_lookup. intros i y Hy.
  unfold expand in He. destruct (decide _); [|done].
  destruct (mapM_lookup_r _ _ _ _ _ He Hy) as (s & _ & Hs).
  by eapply Forall_lookup_1 in HP.
Qed.

(** X2: no entry that [_fieldline_length] or [_fieldline_length_over_volume]
    stores is below zero: each is the absolute value of a mean, so it is
    positive, zero or a NaN. *)
Theorem fieldline_length_not_negative (data data' : gmap string ndarray) (grid : Grid) :
  (_fieldline_length data grid = Some data' →
   ∃ L, data' !! "fieldline length" = Some (Array L) ∧
        Forall (λ x, (x <? 0)%float = false) L) ∧
  (_fieldline_length_over_volume data grid = Some data' →
   ∃ G, data' !! "fieldline length/volume" = Some (Array G) ∧
        Forall (λ x, (x <? 0)%float = false) G).
Proof.
  split.
  - unfold _fieldline_length. intros H.
    destruct (data !! "B^zeta") as [Bz|]; [simpl in H|done].
    destruct (expand grid _) as [L|] eqn:HL; [simpl in H|done].
    injection H as <-. exists L. split; [by rewrite lookup_insert_eq|].
    eapply expand_Forall; [exact HL|].
    apply Forall_fmap, Forall_true. intros x. apply abs_not_negative.
  - unfold _fieldline_length_over_volume. intros H.
    destruct (data !! "B^zeta") as [Bz|]; [simpl in H|done].
    destruct (data !! "sqrt(g)") as [g|]; [simpl in H|done].
    destruct (ew2 PrimFloat.mul Bz g) as [den|]; [simpl in H|done].
    destruct (expand grid _) as [G|] eqn:HG; [simpl in H|done].
    injection H as <-. exists G. split; [by rewrite lookup_insert_eq|].
    eapply expand_Forall; [exact HG|].
    apply Forall_fmap, Forall_true. intros x. apply abs_not_negative.
Qed.

(** ** Missing dependencies and keyword arguments of [_epsilon_32] *)

Lemma copy_required_missing names (data fd : gmap string ndarray) k :
  k ∈ names → data !! k = None → copy_required names data fd = None.
Proof.
  revert fd. induction names as [|n names IH]; intros fd Hin Hk.
  - by apply elem_of_nil in Hin.
  - simpl. apply elem_of_cons in Hin as [->|Hin]; [by rewrite Hk|].
    destruct (data !! n); [simpl|done]. by apply IH.
Qed.

Lemma compute_missing fun_ fun_data (data : gmap string ndarray) grid num_pitch
    simp reduce k :
  k ∈ ["min_tz |B|"; "max_tz |B|"] ++ required_names →
  data !! k = None →
  _compute fun_ fun_data data grid num_pitch simp reduce = None.
Proof.
  intros Hin Hk. unfold _compute, _compute_out, pitch_quad.
  apply elem_of_app in Hin as [Hin|Hin].
  - apply elem_of_cons in Hin as [->|Hin]; [by rewrite Hk|].
    apply elem_of_cons in Hin as [->|Hin]; [|by apply elem_of_nil in Hin].
    rewrite Hk. by destruct (data !! "min_tz |B|").
  - unfold fun_data_reshaped.
    rewrite (copy_required_missing _ _ _ _ Hin Hk). simpl.
    destruct (data !! "min_tz |B|"); [simpl|done].
    by destruct (data !! "max_tz |B|").
Qed.

(** X3: every dependency that the registration of "effective ripple 3/2"
    declares is read: if the data lacks any one of them, [_epsilon_32]
    fails. *)
Theorem epsilon_32_needs_every_dependency (grid : Grid) (data : gmap string ndarray)
    (kwargs : gmap string KwVal) (k : string) :
  k ∈ epsilon_32_deps →
  data !! k = None →
  _epsilon_32 grid data kwargs = None.
Proof.
  intros Hin Hk. unfold _epsilon_32.
  enough (epsilon_32_value grid data kwargs = None) as -> by done.
  unfold epsilon_32_value.
  destruct (kw_quad kwargs) as [quad|]; [simpl|done].
  destruct (kw_int_or_none kwargs "num_well") as [num_well|]; [simpl|done].
  destruct (kw_bool kwargs "batch" true) as [batch|]; [simpl|done].
  destruct (data !! "max_tz |B|") as [B0|] eqn:HB0; [simpl|done].
  destruct (data !! "R0") as [R0|] eqn:HR0; [simpl|done].
  destruct (data !! "<|grad(rho)|>") as [g|] eqn:Hg; [simpl|done].
  destruct (prefactor B0 R0 g) as [c|]; [simpl|done].
  destruct (data !! "|grad(rho)|") as [grad_rho|] eqn:Hgr; [simpl|done].
  destruct (data !! "kappa_g") as [kappa_g|] eqn:Hkg; [simpl|done].
  destruct (ew2 PrimFloat.mul grad_rho kappa_g) as [gk|]; [simpl|done].
  destruct (kw_int kwargs "num_pitch" 50) as [num_pitch|]; [simpl|done].
  destruct (_compute _ _ _ _ _ _ _) as [[r fd]|] eqn:Hc; [simpl|done].
  destruct r as [avg|raw]; [|done].
  destruct (ew2 PrimFloat.mul c (Array avg)) as [t|]; [simpl|done].
  destruct (data !! "fieldline length") as [L|] eqn:HL; [exfalso|done].
  unfold epsilon_32_deps in Hin. apply elem_of_app in Hin as [Hin|Hin].
  - assert (k = "min_tz |B|" ∨ is_Some (data !! k)) as [->|[v Hv]].
    { repeat (apply elem_of_cons in Hin as [->|Hin]; [eauto|]).
      by apply elem_of_nil in Hin. }
    + rewrite (compute_missing _ _ _ _ _ _ _ "min_tz |B|") in Hc; [done| |done].
      apply elem_of_app. left. apply list_elem_of_here.
    + congruence.
  - rewrite (compute_missing _ _ _ _ _ _ _ k) in Hc; [done| |done].
    apply elem_of_app. by right.
Qed.

Lemma kw_lookups_insert (kwargs : gmap string KwVal) (k : string) (v : KwVal) :
  (∀ name dflt, name ≠ k → kw_int (<[k := v]> kwargs) name dflt = kw_int kwargs name dflt) ∧
  (∀ name dflt, name ≠ k → kw_bool (<[k := v]> kwargs) name dflt = kw_bool kwargs name dflt) ∧
  (∀ name, name ≠ k → kw_int_or_none (<[k := v]> kwargs) name = kw_int_or_none kwargs name).
Proof.
  unfold kw_int, kw_bool, kw_int_or_none.
  split; [|split]; intros; by rewrite lookup_insert_ne.
Qed.

(** X4: a quadrature given under the keyword "quad" makes "num_quad"
    irrelevant: whatever is passed as "num_quad", [_epsilon_32] returns the
    same. *)
Theorem epsilon_32_quad_overrides_num_quad (grid : Grid) (data : gmap string ndarray)
    (kwargs : gmap string KwVal) (q : Quad) (v : KwVal) :
  kwargs !! "quad" = Some (KQuad q) →
  _epsilon_32 grid data (<["num_quad" := v]> kwargs) = _epsilon_32 grid data kwargs.
Proof.
  intros Hq. unfold _epsilon_32, epsilon_32_value.
  destruct (kw_lookups_insert kwargs "num_quad" v) as (Hi & Hb & Hn).
  rewrite Hn, Hb, Hi by done.
  assert (kw_quad (<["num_quad" := v]> kwargs) = kw_quad kwargs) as ->; [|done].
  unfold kw_quad. rewrite lookup_insert_ne by done. by rewrite Hq.
Qed.

(** X5: a keyword argument that is left out stands for its default: passing
    "num_pitch" 50, "batch" true, "num_well" [None] or, when no "quad" is
    given, "num_quad" 32 returns what leaving it out returns. *)
Theorem epsilon_32_keyword_defaults (grid : Grid) (data : gmap string ndarray)
    (kwargs : gmap string KwVal) :
  (kwargs !! "num_pitch" = None →
   _epsilon_32 grid data (<["num_pitch" := KInt 50]> kwargs)
   = _epsilon_32 grid data kwargs) ∧
  (kwargs !! "batch" = None →
   _epsilon_32 grid data (<["batch" := KBool true]> kwargs)
   = _epsilon_32 grid data kwargs) ∧
  (kwargs !! "num_well" = None →
   _epsilon_32 grid data (<["num_well" := KNone]> kwargs)
   = _epsilon_32 grid data kwargs) ∧
  (kwargs !! "num_quad" = None →
   _epsilon_32 grid data (<["num_quad" := KInt 32]> kwargs)
   = _epsilon_32 grid data kwargs).
Proof.
  assert (∀ k v, k ≠ "quad" → k ≠ "num_quad" →
            kw_quad (<[k := v]> kwargs) = kw_quad kwargs) as Hquad.
  { intros k v H1 H2. unfold kw_quad, kw_int. by rewrite !lookup_insert_ne. }
  repeat split; intros Hk; unfold _epsilon_32, epsilon_32_value.
  - destruct (kw_lookups_insert kwargs "num_pitch" (KInt 50)) as (Hi & Hb & Hn).
    rewrite Hquad, Hn, Hb by done.
    assert (kw_int (<["num_pitch" := KInt 50]> kwargs) "num_pitch" 50
            = kw_int kwargs "num_pitch" 50) as ->; [|done].
    unfold kw_int. by rewrite lookup_insert_eq, Hk.
  - destruct (kw_lookups_insert kwargs "batch" (KBool true)) as (Hi & Hb & Hn).
    rewrite Hquad, Hn, Hi by done.
    assert (kw_bool (<["batch" := KBool true]> kwargs) "batch" true
            = kw_bool kwargs "batch" true) as ->; [|done].
    unfold kw_bool. by rewrite lookup_insert_eq, Hk.
  - destruct (kw_lookups_insert kwargs "num_well" KNone) as (Hi & Hb & Hn).
    rewrite Hquad, Hb, Hi by done.
    assert (kw_int_or_none (<["num_well" := KNone]> kwargs) "num_well"
            = kw_int_or_none kwargs "num_well") as ->; [|done].
    unfold kw_int_or_none. by rewrite lookup_insert_eq, Hk.
  - destruct (kw_lookups_insert kwargs "num_quad" (KInt 32)) as (Hi & Hb & Hn).
    rewrite Hn, Hb, Hi by done.
    assert (kw_quad (<["num_quad" := KInt 32]> kwargs) = kw_quad kwargs) as ->; [|done].
    unfold kw_quad, kw_int. rewrite lookup_insert_ne by done.
    by rewrite lookup_insert_eq, Hk.
Qed.

(** ** What [_compute] does to [fun_data] and asks of the data *)

Lemma copy_required_lookup names (data fd fd' : gmap string ndarray) name :
  copy_required names data fd = Some fd' → name ∈ names →
  ∃ v, data !! name = Some v ∧ fd' !! name = Some v.
Proof.
  revert fd. induction names as [|n names IH]; intros fd Hc Hin.
  - by apply elem_of_nil in Hin.
  - simpl in Hc. destruct (data !! n) as [v|] eqn:Hn; [simpl in Hc|done].
    destruct (decide (name ∈ names)) as [Hin'|Hout]; [by eapply IH|].
    apply elem_of_cons in Hin as [->|Hin]; [|done].
    exists v. split; [done|].
    rewrite (copy_required_other _ _ _ _ _ Hc Hout). by rewrite lookup_insert_eq.
Qed.

(** X6: the dict [fun_data] that [_compute] has modified holds, under every
    required name, the reshaped entry of [data] (whatever the caller had put
    there) and, under every other key, the caller's entry reshaped. *)
Theorem compute_modifies_fun_data (fun_ : gmap string (list float) → option float)
    (fun_data data : gmap string ndarray) (grid : Grid) (num_pitch : nat)
    (simp reduce : bool) (r : ComputeResult)
    (fd : gmap string (list (list (list float)))) :
  _compute fun_ fun_data data grid num_pitch simp reduce = Some (r, fd) →
  (∀ name, name ∈ required_names →
     ∃ v, data !! name = Some v ∧ fd !! name = Some (reshape_data grid v)) ∧
  (∀ k, k ∉ required_names → fd !! k = reshape_data grid <$> fun_data !! k).
Proof.
  unfold _compute. intros Hc.
  destruct (_compute_out _ _ _ _ _ _) as [out|]; [simpl in Hc|done].
  destruct (fun_data_reshaped fun_data data grid) as [fd'|] eqn:Hfd;
    [simpl in Hc|done].
  assert (fd' = fd) as ->.
  { destruct reduce; [destruct (expand grid (_alpha_mean out))|];
      by simplify_eq/=. }
  unfold fun_data_reshaped in Hfd.
  destruct (copy_required required_names data fun_data) as [fd0|] eqn:Hcp; [|done].
  simpl in Hfd. injection Hfd as <-. split.
  - intros name Hin.
    destruct (copy_required_lookup _ _ _ _ _ Hcp Hin) as (v & Hv & Hf).
    exists v. split; [done|]. by rewrite lookup_fmap, Hf.
  - intros k Hk. by rewrite lookup_fmap, (copy_required_other _ _ _ _ _ Hcp Hk).
Qed.

(** X7: when the sweep of [_compute] succeeds the data had the shape of a
    mesh: the table [out] has a row per field line and in every row an
    entry per row of the pitch quadrature; every reshaped array has a plane
    per row of [out]; and every plane of an array other than the two
    quadrature entries has a row per row of the pitch quadrature. *)
Theorem compute_out_shape {U : Type} (fun_ : gmap string (list float) → option U)
    (fun_data data : gmap string ndarray) (grid : Grid) (num_pitch : nat)
    (simp : bool) (out : list (list U))
    (q : list (list float) * list (list float))
    (fd : gmap string (list (list (list float)))) :
  _compute_out fun_ fun_data data grid num_pitch simp = Some out →
  pitch_quad data grid num_pitch simp = Some q →
  fun_data_reshaped fun_data data grid = Some fd →
  Forall (λ row, length row = length q.1) out ∧
  ∀ k t, fd !! k = Some t →
    length t = length out ∧
    (k ≠ "pitch_inv" → k ≠ "pitch_inv weight" →
     Forall (λ plane, length plane = length q.1) t).
Proof.
  intros Hout Hq Hfd. split.
  - apply Forall_lookup. intros a row Ha.
    by eapply compute_out_rows.
  - intros k t Hk. unfold _compute_out in Hout. rewrite Hq, Hfd in Hout.
    simpl in Hout. pose proof (imap_length _ _ _ Hout) as Hlen.
    pose proof (axis0_len_lookup _ _ _ _ Hlen Hk) as Ht.
    split; [done|]. intros Hk1 Hk2. apply Forall_lookup. intros a plane Hp.
    assert (is_Some (out !! a)) as [row Ha].
    { apply lookup_lt_is_Some. rewrite <- Ht. by eapply lookup_lt_Some. }
    pose proof (imap_lookup _ _ _ _ _ Hout Ha) as Hrow. unfold foreach_rho in Hrow.
    apply imap_length in Hrow.
    rewrite (axis0_len_lookup _ _ "pitch_inv" q.1 Hrow).
    2:{ rewrite lookup_insert_ne by done. by rewrite lookup_insert_eq. }
    apply (axis0_len_lookup _ _ k plane Hrow).
    rewrite !lookup_insert_ne by done. unfold slice.
    by rewrite lookup_omap, Hk.
Qed.

(** ** The two compute functions in sequence *)

(** X8: after [_epsilon_32] and [_effective_ripple] the dict holds the value
    of the first and its power 2/3, and running either function again on
    that dict returns it unchanged.  The two output names are assumed not to
    be required names of the integrator. *)
Theorem ripple_pipeline_is_stable (grid : Grid) (data d1 : gmap string ndarray)
    (kwargs : gmap string KwVal) :
  "effective ripple 3/2" ∉ required_names →
  "effective ripple" ∉ required_names →
  _epsilon_32 grid data kwargs = Some d1 →
  ∃ e d2,
    epsilon_32_value grid data kwargs = Some e ∧
    _effective_ripple d1 = Some d2 ∧
    d2 !! "effective ripple 3/2" = Some e ∧
    d2 !! "effective ripple" = Some (ew1 (λ x, pow x (2 / 3)%float) e) ∧
    (∀ k, k ≠ "effective ripple 3/2" → k ≠ "effective ripple" →
          d2 !! k = data !! k) ∧
    _epsilon_32 grid d2 kwargs = Some d2 ∧
    _effective_ripple d2 = Some d2.
Proof.
  intros H32 H1 He. unfold _epsilon_32 in He.
  destruct (epsilon_32_value grid data kwargs) as [e|] eqn:Hv; [|done].
  simpl in He. injection He as <-.
  set (d2 := <["effective ripple" := ew1 (λ x, pow x (2 / 3)%float) e]>
               (<["effective ripple 3/2" := e]> data)).
  assert (d2 !! "effective ripple 3/2" = Some e) as H2e.
  { unfold d2. rewrite lookup_insert_ne by done. by rewrite lookup_insert_eq. }
  exists e, d2. split; [done|]. split.
  { unfold _effective_ripple. by rewrite lookup_insert_eq. }
  split; [done|]. split; [by unfold d2; rewrite lookup_insert_eq|].
  split.
  { intros k Hk1 Hk2. unfold d2. by rewrite !lookup_insert_ne. }
  split.
  - unfold _epsilon_32. rewrite (epsilon_32_value_ext grid d2 data kwargs), Hv.
    + simpl. f_equal. by apply insert_id.
    + intros k Hk. unfold d2. rewrite !lookup_insert_ne; [done|..].
      * intros <-. unfold epsilon_32_deps in Hk.
        apply elem_of_app in Hk as [Hk|Hk]; [|done].
        repeat (apply elem_of_cons in Hk as [Hk|Hk]; [discriminate Hk|]).
        by apply elem_of_nil in Hk.
      * intros <-. unfold epsilon_32_deps in Hk.
        apply elem_of_app in Hk as [Hk|Hk]; [|done].
        repeat (apply elem_of_cons in Hk as [Hk|Hk]; [discriminate Hk|]).
        by apply elem_of_nil in Hk.
  - unfold _effective_ripple. rewrite H2e. simpl. f_equal.
    unfold d2. by rewrite insert_insert_eq.
Qed.

(** ** The objectives after [build] *)

Lemma splice_kwargs_Some k1 k2 k :
  splice_kwargs k1 k2 = Some k → k = k1 ∪ k2.
Proof. unfold splice_kwargs. destruct (decide _); by intros [= <-]. Qed.

Lemma copy_keys_but_R0_in keys (data d : gmap string ndarray) grid grid_1dr key :
  copy_keys_but_R0 keys data grid grid_1dr = Some d → key ∈ keys →
  d !! key
  = (λ v, if decide (key ≠ "R0") then copy_data_from_other grid v grid_1dr else v)
      <$> data !! key.
Proof.
  revert d. induction keys as [|k keys IH]; intros d Hc Hin; simpl in Hc.
  - by apply elem_of_nil in Hin.
  - destruct (data !! k) as [v|] eqn:Hk; [simpl in Hc|done].
    destruct (copy_keys_but_R0 keys data grid grid_1dr) as [rest|]; [|done].
    simpl in Hc. injection Hc as <-.
    destruct (decide (key = k)) as [->|Hne].
    + by rewrite lookup_insert_eq, Hk.
    + rewrite lookup_insert_ne by done.
      apply elem_of_cons in Hin as [?|Hin]; [done|]. by apply IH.
Qed.

Lemma copy_keys_but_R0_out keys (data d : gmap string ndarray) grid grid_1dr key :
  copy_keys_but_R0 keys data grid grid_1dr = Some d → key ∉ keys → d !! key = None.
Proof.
  revert d. induction keys as [|k keys IH]; intros d Hc Hout; simpl in Hc.
  - injection Hc as <-. apply lookup_empty.
  - destruct (data !! k) as [v|] eqn:Hk; [simpl in Hc|done].
    destruct (copy_keys_but_R0 keys data grid grid_1dr) as [rest|]; [|done].
    simpl in Hc. injection Hc as <-.
    apply not_elem_of_cons in Hout as [Hne Hout].
    rewrite lookup_insert_ne by done. by apply IH.
Qed.

Lemma EffectiveRipple_build_init a b :
  ∃ built,
    EffectiveRipple_build (EffectiveRipple_init a b) = Some built ∧
    arg_things (er_base (er_self built)) = arg_things a ∧
    er_keys_1dr (er_self built)
    = ["iota"; "iota_r"; "<|grad(rho)|>"; "min_tz |B|"; "max_tz |B|"; "R0"] ∧
    er_grid_1dr built = LinearGrid (entries (arg_rho b)) (arg_things a) ∧
    er_hyperparameters (er_self built)
    = <["num_well" := kw_of_num_well (arg_num_well b)]>
        (<["batch" := KBool (arg_batch b)]>
           {["num_pitch" := KInt (arg_num_pitch b)]}) ∧
    const_transforms (er_constants (er_self built)) "transforms_1dr"
    = Some (get_transforms
              ["iota"; "iota_r"; "<|grad(rho)|>"; "min_tz |B|"; "max_tz |B|"; "R0"]
              (arg_things a) (LinearGrid (entries (arg_rho b)) (arg_things a))
              false) ∧
    const_profiles (er_constants (er_self built)) "profiles"
    = Some (get_profiles
              (["iota"; "iota_r"; "<|grad(rho)|>"; "min_tz |B|"; "max_tz |B|"; "R0"]
               ++ ["effective ripple"]) (arg_things a)
              (LinearGrid (entries (arg_rho b)) (arg_things a))) ∧
    const_quad (er_constants (er_self built)) "quad"
    = Some (chebgauss2 (arg_num_quad b)).
Proof.
  unfold EffectiveRipple_build.
  assert (const_array (er_constants (EffectiveRipple_init a b)) "rho"
          = Some (entries (arg_rho b))) as ->.
  { unfold const_array. simpl. rewrite !lookup_insert_ne by done.
    by rewrite lookup_insert_eq. }
  eexists. split; [reflexivity|].
  cbn [er_self er_base er_keys_1dr er_grid_1dr er_hyperparameters er_constants
       EffectiveRipple_init arg_things mbind option_bind].
  do 4 (split; [done|]).
  unfold const_transforms, const_profiles, const_quad.
  split; [|split].
  - rewrite lookup_insert_ne by done. by rewrite lookup_insert_eq.
  - by rewrite lookup_insert_eq.
  - rewrite !lookup_insert_ne by done. by rewrite lookup_insert_eq.
Qed.

(** X9: [EffectiveRipple.compute] asks the framework for the quantity
    "effective ripple" and returns its compressed entry.  The data it hands
    over holds the six per-surface quantities of the first compute call and
    nothing else: "R0" as it came, every other one copied onto the field line
    grid. *)
Theorem EffectiveRipple_compute_request (a : ObjectiveArgs) (b : BounceArgs) :
  ∃ built,
    EffectiveRipple_build (EffectiveRipple_init a b) = Some built ∧
    ∀ params rq,
      EffectiveRipple_request built params None = Some rq →
      let eq := arg_things a in
      let grid_1dr := LinearGrid (entries (arg_rho b)) eq in
      let keys := ["iota"; "iota_r"; "<|grad(rho)|>"; "min_tz |B|"; "max_tz |B|"; "R0"] in
      let data0 :=
        compute_fun eq keys params (get_transforms keys eq grid_1dr false)
          (get_profiles (keys ++ ["effective ripple"]) eq grid_1dr) ∅ ∅ in
      rq_name rq = "effective ripple" ∧
      rq_data rq !! "R0" = data0 !! "R0" ∧
      (∀ key, key ∈ keys → key ≠ "R0" →
         rq_data rq !! key
         = (λ v, copy_data_from_other (rq_grid rq) v grid_1dr) <$> data0 !! key) ∧
      (∀ key, key ∉ keys → rq_data rq !! key = None) ∧
      EffectiveRipple_compute built params None
      = (v ← compute_fun eq ["effective ripple"] params (rq_transforms rq)
               (rq_profiles rq) (rq_data rq) (rq_kwargs rq) !! "effective ripple";
         Some (compress (rq_grid rq) "rho" v)).
Proof.
  destruct (EffectiveRipple_build_init a b)
    as (built & Hb & Heq & Hkeys & Hg & Hh & Htr & Hpr & Hq).
  exists built. split; [done|]. intros params rq Hrq eq grid_1dr keys data0.
  assert (EffectiveRipple_compute built params None
          = (v ← compute_fun eq ["effective ripple"] params (rq_transforms rq)
                   (rq_profiles rq) (rq_data rq) (rq_kwargs rq)
                 !! "effective ripple";
             Some (compress (rq_grid rq) "rho" v))) as Hcomp.
  { unfold EffectiveRipple_compute. rewrite Hrq. simpl. rewrite Heq.
    unfold EffectiveRipple_request in Hrq.
    repeat (match type of Hrq with
            | (mbind _ ?m) = Some _ => destruct m; [simpl in Hrq|discriminate Hrq]
            end).
    by injection Hrq as <-. }
  unfold EffectiveRipple_request in Hrq. cbn [default] in Hrq.
  rewrite Htr, Hpr, Heq, Hkeys, Hg in Hrq. cbn [mbind option_bind] in Hrq.
  fold eq grid_1dr keys in Hrq. fold data0 in Hrq.
  repeat (match type of Hrq with
          | (mbind _ ?m) = Some _ =>
              let E := fresh "E" in
              destruct m eqn:E;
              [cbn [mbind option_bind] in Hrq|discriminate Hrq]
          end).
  injection Hrq as <-. cbn [rq_name rq_data rq_grid].
  match goal with
  | H : copy_keys_but_R0 _ _ _ _ = Some _ |- _ => rename H into Hcopy
  end.
  split; [done|]. split.
  { rewrite (copy_keys_but_R0_in _ _ _ _ _ "R0" Hcopy).
    - by destruct (data0 !! "R0").
    - unfold keys. repeat first [apply list_elem_of_here | apply list_elem_of_further]. }
  split.
  { intros key Hin Hne. rewrite (copy_keys_but_R0_in _ _ _ _ _ key Hcopy Hin).
    destruct (data0 !! key); [simpl|done]. by rewrite decide_True by done. }
  split; [|done].
  intros key Hout. by apply (copy_keys_but_R0_out _ _ _ _ _ key Hcopy).
Qed.

Lemma EffectiveRipple_request_kwargs built params rq :
  EffectiveRipple_request built params None = Some rq →
  ∃ quad,
    const_quad (er_constants (er_self built)) "quad" = Some quad ∧
    rq_kwargs rq = <["quad" := KQuad quad]> (er_hyperparameters (er_self built)).
Proof.
  unfold EffectiveRipple_request. cbn [default]. intros Hrq.
  repeat (match type of Hrq with
          | (mbind _ ?m) = Some _ =>
              let E := fresh "E" in
              destruct m eqn:E;
              [cbn [mbind option_bind] in Hrq|discriminate Hrq]
          end).
  injection Hrq as <-. cbn [rq_kwargs].
  match goal with
  | H : splice_kwargs _ _ = Some _ |- _ => apply splice_kwargs_Some in H as ->
  end.
  eexists. split; [reflexivity|]. by rewrite insert_union_singleton_l.
Qed.

(** X10: the keyword arguments that [EffectiveRipple.compute] passes are
    the quadrature [chebgauss2(num_quad)] and the hyperparameters of the
    constructor, and [_epsilon_32] reads them back as such: its quadrature is
    that rule, and "num_pitch", "batch" and "num_well" are the constructor's
    values, so none of its defaults applies. *)
Theorem EffectiveRipple_hyperparameters_reach_kernel (a : ObjectiveArgs)
    (b : BounceArgs) :
  ∃ built,
    EffectiveRipple_build (EffectiveRipple_init a b) = Some built ∧
    ∀ params rq,
      EffectiveRipple_request built params None = Some rq →
      rq_kwargs rq
      = <["quad" := KQuad (chebgauss2 (arg_num_quad b))]>
          (<["num_well" := kw_of_num_well (arg_num_well b)]>
             (<["batch" := KBool (arg_batch b)]>
                {["num_pitch" := KInt (arg_num_pitch b)]})) ∧
      kw_quad (rq_kwargs rq) = Some (chebgauss2 (arg_num_quad b)) ∧
      kw_int (rq_kwargs rq) "num_pitch" 50 = Some (arg_num_pitch b) ∧
      kw_bool (rq_kwargs rq) "batch" true = Some (arg_batch b) ∧
      kw_int_or_none (rq_kwargs rq) "num_well" = Some (arg_num_well b).
Proof.
  destruct (EffectiveRipple_build_init a b)
    as (built & Hb & Heq & Hkeys & Hg & Hh & Htr & Hpr & Hq).
  exists built. split; [done|]. intros params rq Hrq.
  destruct (EffectiveRipple_request_kwargs _ _ _ Hrq) as (quad & Hquad & ->).
  rewrite Hq in Hquad. injection Hquad as <-. rewrite Hh.
  split; [done|].
  unfold kw_quad, kw_int, kw_bool, kw_int_or_none.
  split; [by rewrite lookup_insert_eq|].
  split; [rewrite !lookup_insert_ne by done; by rewrite lookup_singleton_eq|].
  split.
  - rewrite !lookup_insert_ne by done. by rewrite lookup_insert_eq.
  - rewrite lookup_insert_ne by done. rewrite lookup_insert_eq.
    by destruct (arg_num_well b).
Qed.

Lemma GammaC_build_init_state a b Nemov :
  ∃ self,
    GammaC_build (GammaC_init a b Nemov) = Some self ∧
    gc_key self = (if Nemov then "Gamma_c" else "Gamma_c Velasco") ∧
    gc_hyperparameters self
    = <["num_well" := kw_of_num_well (arg_num_well b)]>
        (<["batch" := KBool (arg_batch b)]>
           {["num_pitch" := KInt (arg_num_pitch b)]}) ∧
    const_quad (gc_constants self) "quad"
    = Some (get_quadrature (leggauss (arg_num_quad b))
              (automorphism_sin, grad_automorphism_sin)) ∧
    const_quad (gc_constants self) "quad2"
    = (if Nemov then Some (chebgauss2 (arg_num_quad b)) else None) ∧
    const_array (gc_constants self) "rho" = Some (entries (arg_rho b)).
Proof.
  unfold GammaC_build.
  assert (const_array (gc_constants (GammaC_init a b Nemov)) "rho"
          = Some (entries (arg_rho b))) as ->.
  { unfold const_array. simpl. rewrite !lookup_insert_ne by done.
    by rewrite lookup_insert_eq. }
  assert (pop_int (gc_hyperparameters (GammaC_init a b Nemov)) "num_quad"
          = Some (arg_num_quad b,
                  delete "num_quad" (gc_hyperparameters (GammaC_init a b Nemov))))
    as ->.
  { unfold pop_int. simpl. rewrite !lookup_insert_ne by done.
    by rewrite lookup_singleton_eq. }
  eexists. split; [reflexivity|]. cbn [gc_key gc_base gc_hyperparameters
    gc_constants GammaC_init arg_things fst snd mbind option_bind].
  split; [done|]. split.
  { rewrite !delete_insert_ne by done. rewrite delete_singleton_eq.
    by rewrite insert_empty. }
  unfold const_quad, const_array. split; [|split].
  - rewrite !lookup_insert_ne by done. destruct Nemov.
    + rewrite decide_True by done. rewrite lookup_insert_ne by done.
      by rewrite lookup_insert_eq.
    + rewrite decide_False by done. by rewrite lookup_insert_eq.
  - rewrite !lookup_insert_ne by done. destruct Nemov.
    + rewrite decide_True by done. by rewrite lookup_insert_eq.
    + rewrite decide_False by done. rewrite !lookup_insert_ne by done.
      by rewrite lookup_singleton_ne.
  - rewrite !lookup_insert_ne by done. destruct Nemov.
    + rewrite decide_True by done. rewrite !lookup_insert_ne by done.
      by rewrite lookup_insert_eq.
    + rewrite decide_False by done. rewrite !lookup_insert_ne by done.
      by rewrite lookup_insert_eq.
Qed.

(** X11: the keyword arguments that [GammaC.compute] passes are the
    quadrature built from [leggauss(num_quad)] under "quad", with [Nemov] the
    rule [chebgauss2(num_quad)] under "quad2", and "num_pitch", "batch" and
    "num_well"; "num_quad" itself, which [build] has taken out of the
    hyperparameters, is not passed. *)
Theorem GammaC_compute_keywords (a : ObjectiveArgs) (b : BounceArgs) (Nemov : bool) :
  ∃ self,
    GammaC_build (GammaC_init a b Nemov) = Some self ∧
    gc_hyperparameters self !! "num_quad" = None ∧
    ∀ params rq,
      GammaC_request self params None = Some rq →
      let hyper :=
        <["num_well" := kw_of_num_well (arg_num_well b)]>
          (<["batch" := KBool (arg_batch b)]>
             {["num_pitch" := KInt (arg_num_pitch b)]}) in
      let quad :=
        KQuad (get_quadrature (leggauss (arg_num_quad b))
                 (automorphism_sin, grad_automorphism_sin)) in
      rq_kwargs rq
      = (if Nemov
         then <["quad" := quad]>
                (<["quad2" := KQuad (chebgauss2 (arg_num_quad b))]> hyper)
         else <["quad" := quad]> hyper) ∧
      rq_kwargs rq !! "num_quad" = None.
Proof.
  destruct (GammaC_build_init_state a b Nemov)
    as (self & Hb & Hkey & Hh & Hq & Hq2 & _).
  exists self. split; [done|]. split.
  { rewrite Hh. rewrite !lookup_insert_ne by done. by rewrite lookup_singleton_ne. }
  intros params rq Hrq hyper quad.
  assert (rq_kwargs rq
          = (if Nemov
             then <["quad" := quad]>
                    (<["quad2" := KQuad (chebgauss2 (arg_num_quad b))]> hyper)
             else <["quad" := quad]> hyper)) as Hkw.
  { unfold GammaC_request in Hrq. cbn [default] in Hrq.
    rewrite Hq, Hq2, Hh, Hkey in Hrq. fold hyper in Hrq.
    repeat (match type of Hrq with
            | (mbind _ ?m) = Some _ =>
                let E := fresh "E" in
                destruct m eqn:E;
                [cbn [mbind option_bind] in Hrq|discriminate Hrq]
            end).
    injection Hrq as <-. cbn [rq_kwargs].
    repeat match goal with
    | H : splice_kwargs _ _ = Some _ |- _ => apply splice_kwargs_Some in H
    end.
    subst. destruct Nemov.
    - rewrite decide_True in * by done. simplify_eq/=.
      by rewrite <- !insert_union_singleton_l.
    - rewrite decide_False in * by done. simplify_eq/=.
      rewrite (right_id ∅ (∪)). by rewrite <- insert_union_singleton_l. }
  split; [done|]. rewrite Hkw. unfold hyper.
  destruct Nemov; rewrite !lookup_insert_ne by done; by rewrite lookup_singleton_ne.
Qed.

(** X12: [GammaC.build] cannot be run twice on one object: the first run
    takes "num_quad" out of the hyperparameters, so the second, which finds
    "rho" among the constants as before, fails where it takes "num_quad"
    out again. *)
Theorem GammaC_build_twice_fails (a : ObjectiveArgs) (b : BounceArgs) (Nemov : bool) :
  ∃ self,
    GammaC_build (GammaC_init a b Nemov) = Some self ∧
    const_array (gc_constants self) "rho" = Some (entries (arg_rho b)) ∧
    pop_int (gc_hyperparameters self) "num_quad" = None ∧
    GammaC_build self = None.
Proof.
  destruct (GammaC_build_init_state a b Nemov)
    as (self & Hb & _ & Hh & _ & _ & Hrho).
  assert (pop_int (gc_hyperparameters self) "num_quad" = None) as Hpop.
  { unfold pop_int. rewrite Hh. rewrite !lookup_insert_ne by done.
    by rewrite lookup_singleton_ne. }
  exists self. split; [done|]. split; [done|]. split; [done|].
  unfold GammaC_build. rewrite Hrho. cbn [mbind option_bind].
  by rewrite Hpop.
Qed.

End Neoclassical.

(** ** The theorems at the small instance

    Every theorem above that has a premise is applied to the instance [Toy];
    the premises are discharged by evaluation. *)

Lemma effective_ripple_is_two_thirds_power_witness :
  ∃ data' r,
    _effective_ripple Toy.pow {["effective ripple 3/2" := Array [8; 0]%float]}
    = Some data' ∧
    data' !! "effective ripple" = Some r ∧
    entries r !! 0 = Some (Toy.pow 8 (2 / 3)%float) ∧
    entries r !! 1 = Some (Toy.pow 0 (2 / 3)%float).
Proof.
  destruct (effective_ripple_is_two_thirds_power Toy.pow
              {["effective ripple 3/2" := Array [8; 0]%float]}
              (Array [8; 0]%float))
    as (data' & r & Hrun & _ & Hr & _ & Hent); [vm_compute; reflexivity|].
  exists data', r. split; [exact Hrun|]. split; [exact Hr|].
  split; [exact (Hent 0 _ eq_refl)|exact (Hent 1 _ eq_refl)].
Defined.

Lemma eps_32_weights_pitch_sum_witness :
  let d : gmap string (list float) :=
    <["pitch_inv" := [1.25; 1.75]%float]>
    (<["pitch_inv weight" := [0.5; 0.5]%float]>
    (<["|B|" := [2; 1; 2]%float]>
    {["|grad(rho)|*kappa_g" := [0.5; 0.25; 0.5]%float]})) in
  ∃ H I,
    Toy.Bounce1D_integrate d [dH; dI] [1.25; 1.75]%float d "|grad(rho)|*kappa_g"
      [1.25; 1.75]%float true = [H; I] ∧
    same_shape H I ∧
    eps_32 Toy.integer_pow _ _ Toy.Bounce1D_new Toy.Bounce1D_points
      Toy.Bounce1D_integrate Toy.grid (Toy.chebgauss2 4) (Some 2) true d
    = Some (pitch_weighted_sum Toy.integer_pow H I [1.25; 1.75]%float
              [0.5; 0.5]%float).
Proof.
  intros d.
  assert (∃ H I,
            Toy.Bounce1D_integrate d [dH; dI] [1.25; 1.75]%float d
              "|grad(rho)|*kappa_g" [1.25; 1.75]%float true = [H; I] ∧
            same_shape H I ∧ length H = 2) as (H & I & Hint & Hs & HH).
  { vm_compute. eexists _, _. split; [reflexivity|].
    split; [repeat constructor|reflexivity]. }
  exists H, I. split; [exact Hint|]. split; [exact Hs|].
  apply (eps_32_weights_pitch_sum Toy.integer_pow _ _ Toy.Bounce1D_new
           Toy.Bounce1D_points Toy.Bounce1D_integrate Toy.grid (Toy.chebgauss2 4)
           (Some 2) true d [1.25; 1.75]%float [0.5; 0.5]%float H I).
  - vm_compute; reflexivity.
  - vm_compute; reflexivity.
  - exact Hint.
  - exact Hs.
  - exact HH.
  - reflexivity.
Defined.

Lemma zero_measure_well_contributes_zero_witness :
  ∃ q,
    well_terms Toy.integer_pow [[nan; 3]]%float [[0; 2]]%float = Some q ∧
    q !! 0 ≫= (λ qp : list float, qp !! 0) = Some 0%float.
Proof.
  destruct (zero_measure_well_contributes_zero Toy.integer_pow
              [[nan; 3]]%float [[0; 2]]%float 0 0 [0; 2]%float 0%float)
    as (q & qp & c & Hq & Hp & Hw & Hc & _).
  - repeat constructor.
  - reflexivity.
  - reflexivity.
  - reflexivity.
  - exists q. split; [exact Hq|]. rewrite Hp. simpl. rewrite Hw. by rewrite Hc.
Defined.

Lemma compute_reduces_by_uniform_mean_witness :
  let fun_ := λ d : gmap string (list float), array_sum <$> d !! "|B|" in
  ∃ x fd out,
    _compute Toy.compress Toy.reshape_data Toy.required_names
      Toy.get_pitch_inv_quad fun_ ∅ Toy.data Toy.grid 2 false true
    = Some (Reduced x, fd) ∧
    _compute_out Toy.compress Toy.reshape_data Toy.required_names
      Toy.get_pitch_inv_quad fun_ ∅ Toy.data Toy.grid 2 false
    = Some out ∧
    length x = 12.
Proof.
  intros fun_.
  assert (∃ x fd,
            _compute Toy.compress Toy.reshape_data Toy.required_names
              Toy.get_pitch_inv_quad fun_ ∅ Toy.data Toy.grid 2 false true
            = Some (Reduced x, fd)) as (x & fd & Hc).
  { vm_compute. eexists _, _. reflexivity. }
  destruct (compute_reduces_by_uniform_mean Toy.compress Toy.reshape_data
              Toy.required_names Toy.get_pitch_inv_quad fun_ ∅ Toy.data Toy.grid
              2 false x fd Hc) as (out & Hout & Hlen & _).
  exists x, fd, out. split; [exact Hc|]. split; [exact Hout|]. exact Hlen.
Defined.

Lemma fieldline_length_is_mean_simpson_witness :
  ∃ L,
    _fieldline_length Toy.simpson Toy.compress Toy.meshgrid_reshape Toy.data Toy.grid
    = Some (<["fieldline length" := Array L]> Toy.data) ∧
    length L = 12.
Proof.
  destruct (fieldline_length_is_mean_simpson Toy.simpson Toy.compress
              Toy.meshgrid_reshape Toy.data Toy.grid (Toy.on_nodes 0.5))
    as (L & HL & Hlen & _).
  - vm_compute; reflexivity.
  - vm_compute. discriminate.
  - vm_compute. repeat constructor.
  - vm_compute. repeat constructor.
  - exists L. split; [exact HL|exact Hlen].
Defined.

Lemma pitch_quadrature_shared_on_surface_witness :
  let fun_ := λ d : gmap string (list float), d !! "pitch_inv" in
  let q := Toy.get_pitch_inv_quad [1; 1]%float [2; 2]%float 2 false in
  ∃ out,
    _compute_out Toy.compress Toy.reshape_data Toy.required_names
      Toy.get_pitch_inv_quad fun_ ∅ Toy.data Toy.grid 2 false
    = Some out ∧
    length out = 2 ∧
    ∀ a r, a < 2 → r < 2 →
      ∃ row, out !! a = Some row ∧ row !! r = q.1 !! r.
Proof.
  intros fun_ q.
  assert (match _compute_out Toy.compress Toy.reshape_data Toy.required_names
                  Toy.get_pitch_inv_quad fun_ ∅ Toy.data Toy.grid 2 false with
          | Some out => length out =? 2
          | None => false
          end = true) as Hrun.
  { vm_compute; reflexivity. }
  destruct (_compute_out Toy.compress Toy.reshape_data Toy.required_names
              Toy.get_pitch_inv_quad fun_ ∅ Toy.data Toy.grid 2 false)
    as [out|] eqn:Hout; [|discriminate Hrun].
  apply Nat.eqb_eq in Hrun.
  destruct (pitch_quadrature_shared_on_surface Toy.compress Toy.reshape_data
              Toy.required_names Toy.get_pitch_inv_quad fun_ ∅ Toy.data Toy.grid
              2 false out (Toy.on_nodes 1) (Toy.on_nodes 2))
    as (_ & fd & _ & _ & _ & Hent).
  - vm_compute; reflexivity.
  - vm_compute; reflexivity.
  - exact Hout.
  - exists out. split; [reflexivity|]. split; [exact Hrun|].
    intros a r Ha Hr.
    assert (length q.1 = 2) as Hq by (vm_compute; reflexivity).
    destruct (Hent a r) as (row & v & nodes & weights & Hrow & Hv & Hn & _ & Hfun & Hpi & _).
    + by rewrite Hrun.
    + change (r < length q.1). by rewrite Hq.
    + exists row. split; [exact Hrow|]. rewrite Hv. change (q.1 !! r = Some nodes) in Hn.
      rewrite Hn. unfold fun_ in Hfun. rewrite Hpi in Hfun. exact (eq_sym Hfun).
Defined.

Abbreviation toy_epsilon_32 :=
  (_epsilon_32 Toy.pow Toy.integer_pow Toy.compress Toy.reshape_data
     Toy.required_names Toy.get_pitch_inv_quad Toy.chebgauss2 _ _ Toy.Bounce1D_new
     Toy.Bounce1D_points Toy.Bounce1D_integrate).


Lemma epsilon_32_pure_witness :
  ("effective ripple 3/2" ∉ Toy.required_names) ∧
  ∃ data',
    toy_epsilon_32 Toy.grid Toy.data Toy.kwargs = Some data' ∧
    toy_epsilon_32 Toy.grid data' Toy.kwargs = Some data'.
Proof.
  assert ("effective ripple 3/2" ∉ Toy.required_names) as Hn.
  { intros Hk. unfold Toy.required_names in Hk.
    repeat (apply elem_of_cons in Hk as [Hk|Hk]; [discriminate Hk|]).
    by apply elem_of_nil in Hk. }
  split; [exact Hn|].
  assert (∃ data', toy_epsilon_32 Toy.grid Toy.data Toy.kwargs = Some data')
    as (data' & He).
  { vm_compute. eexists. reflexivity. }
  destruct (epsilon_32_pure Toy.pow Toy.integer_pow Toy.compress
              Toy.reshape_data Toy.required_names Toy.get_pitch_inv_quad
              Toy.chebgauss2 _ _ Toy.Bounce1D_new Toy.Bounce1D_points
              Toy.Bounce1D_integrate Toy.grid Toy.kwargs Hn) as [_ Hre].
  destruct (Hre Toy.data data' He) as (_ & _ & Hagain).
  exists data'. split; [exact He|exact Hagain].
Defined.

Lemma target_defaults_to_zero_witness :
  let a : ObjectiveArgs unit :=
    {| arg_things := tt; arg_target := None; arg_bounds := None;
       arg_weight := 1%float; arg_normalize := true;
       arg_normalize_target := true; arg_loss_function := None;
       arg_deriv_mode := "auto"; arg_name := "Effective ripple";
       arg_jac_chunk_size := None |} in
  let b : BounceArgs :=
    {| arg_rho := Array [0.5; 1]%float; arg_alpha := Scalar 0%float;
       arg_batch := true; arg_Y_B := 4; arg_num_transit := 2;
       arg_num_quad := 4; arg_num_pitch := 2; arg_num_well := None |} in
  arg_target unit
    (er_base unit (list string) (list string)
       (EffectiveRipple_init Toy.chebgauss2 unit (list string) (list string)
          Toy.linspace a b))
  = Some (TScalar 0%float) ∧
  arg_target unit
    (gc_base unit (list string) (list string)
       (GammaC_init unit (list string) (list string) Toy.linspace a b true))
  = Some (TScalar 0%float).
Proof.
  intros a b.
  destruct (target_defaults_to_zero Toy.chebgauss2 unit (list string)
              (list string) Toy.linspace a b true eq_refl eq_refl)
    as (Her & Hgc & _).
  split; [exact Her|exact Hgc].
Defined.

Abbreviation toy_GammaC_build :=
  (GammaC_build Toy.chebgauss2 unit (list string) (list string) Toy.LinearGrid
     Toy.get_transforms Toy.get_profiles Toy.chebgauss2 Toy.get_quadrature
     (λ x : float, x) (λ x : float, x) (λ t b _, (t, b))).

Abbreviation toy_GammaC_request :=
  (GammaC_request Toy.compress unit unit (list string) (list string)
     Toy.get_transforms Toy.compute_fun Toy._get_rtz_grid
     Toy.copy_data_from_other).

Lemma GammaC_selects_formulation_witness :
  let a : ObjectiveArgs unit :=
    {| arg_things := tt; arg_target := None; arg_bounds := None;
       arg_weight := 1%float; arg_normalize := true;
       arg_normalize_target := true; arg_loss_function := None;
       arg_deriv_mode := "auto"; arg_name := "Gamma_c";
       arg_jac_chunk_size := None |} in
  let b : BounceArgs :=
    {| arg_rho := Array [0.5; 1]%float; arg_alpha := Scalar 0%float;
       arg_batch := true; arg_Y_B := 4; arg_num_transit := 2;
       arg_num_quad := 4; arg_num_pitch := 2; arg_num_well := None |} in
  ∃ self rq,
    toy_GammaC_build (GammaC_init unit (list string) (list string) Toy.linspace a b true)
    = Some self ∧
    toy_GammaC_request self tt None = Some rq ∧
    rq_name (list string) (list string) rq = "Gamma_c" ∧
    rq_kwargs (list string) (list string) rq !! "quad2"
    = Some (KQuad (Toy.chebgauss2 4)).
Proof.
  intros a b.
  assert (∃ self rq,
            toy_GammaC_build
              (GammaC_init unit (list string) (list string) Toy.linspace a b true)
            = Some self ∧
            toy_GammaC_request self tt None = Some rq) as (self & rq & Hb & Hr).
  { eexists _, _. split; [vm_compute; reflexivity|vm_compute; reflexivity]. }
  destruct (GammaC_selects_formulation Toy.compress Toy.chebgauss2 unit unit
              (list string) (list string) Toy.LinearGrid Toy.get_transforms
              Toy.get_profiles Toy.compute_fun Toy._get_rtz_grid
              Toy.copy_data_from_other Toy.chebgauss2 Toy.get_quadrature
              (λ x : float, x) (λ x : float, x) Toy.linspace (λ t b _, (t, b))
              a b true)
    as (self' & Hb' & Hkey & _ & Hrq).
  rewrite Hb in Hb'. injection Hb' as <-.
  destruct (Hrq tt rq Hr) as (Hn & Hkw & _).
  exists self, rq. split; [exact Hb|]. split; [exact Hr|].
  split; [by rewrite Hn, Hkey|exact Hkw].
Defined.

(** ** The further properties at the small instance *)

Lemma fieldline_length_over_volume_is_mean_simpson_witness :
  let data := <["sqrt(g)" := Toy.on_nodes 2]> Toy.data in
  ∃ G,
    _fieldline_length_over_volume Toy.simpson Toy.compress Toy.meshgrid_reshape
      data Toy.grid
    = Some (<["fieldline length/volume" := Array G]> data) ∧
    length G = 12.
Proof.
  intros data.
  destruct (fieldline_length_over_volume_is_mean_simpson Toy.simpson Toy.compress
              Toy.meshgrid_reshape data Toy.grid (Toy.on_nodes 0.5)
              (Toy.on_nodes 2) (Toy.on_nodes 1))
    as (G & HG & Hlen & _).
  - vm_compute; reflexivity.
  - vm_compute; reflexivity.
  - vm_compute; reflexivity.
  - vm_compute. discriminate.
  - vm_compute. repeat constructor.
  - vm_compute. repeat constructor.
  - exists G. split; [exact HG|exact Hlen].
Defined.

Lemma fieldline_length_not_negative_witness :
  ∃ data' L,
    _fieldline_length Toy.simpson Toy.compress Toy.meshgrid_reshape Toy.data Toy.grid
    = Some data' ∧
    data' !! "fieldline length" = Some (Array L) ∧
    Forall (λ x, (x <? 0)%float = false) L.
Proof.
  assert (match _fieldline_length Toy.simpson Toy.compress Toy.meshgrid_reshape
                  Toy.data Toy.grid with
          | Some _ => true
          | None => false
          end = true) as Hrun.
  { vm_compute; reflexivity. }
  destruct (_fieldline_length Toy.simpson Toy.compress Toy.meshgrid_reshape
              Toy.data Toy.grid) as [data'|] eqn:Hd; [|discriminate Hrun].
  destruct (fieldline_length_not_negative Toy.simpson Toy.compress
              Toy.meshgrid_reshape Toy.data data' Toy.grid) as [Hlen _].
  destruct (Hlen Hd) as (L & HL & Hpos).
  exists data', L. split; [reflexivity|]. split; [exact HL|exact Hpos].
Defined.

Lemma epsilon_32_needs_every_dependency_witness :
  "kappa_g" ∈ epsilon_32_deps Toy.required_names ∧
  toy_epsilon_32 Toy.grid (delete "kappa_g" Toy.data) Toy.kwargs = None.
Proof.
  assert ("kappa_g" ∈ epsilon_32_deps Toy.required_names) as Hin.
  { unfold epsilon_32_deps. apply elem_of_app. left.
    repeat (first [apply list_elem_of_here|apply list_elem_of_further]). }
  split; [exact Hin|].
  apply (epsilon_32_needs_every_dependency Toy.pow Toy.integer_pow Toy.compress
           Toy.reshape_data Toy.required_names Toy.get_pitch_inv_quad
           Toy.chebgauss2 _ _ Toy.Bounce1D_new Toy.Bounce1D_points
           Toy.Bounce1D_integrate Toy.grid (delete "kappa_g" Toy.data) Toy.kwargs
           "kappa_g" Hin).
  vm_compute; reflexivity.
Defined.

Lemma epsilon_32_quad_overrides_num_quad_witness :
  Toy.kwargs !! "quad" = Some (KQuad (Toy.chebgauss2 4)) ∧
  toy_epsilon_32 Toy.grid Toy.data (<["num_quad" := KInt 7]> Toy.kwargs)
  = toy_epsilon_32 Toy.grid Toy.data Toy.kwargs.
Proof.
  assert (Toy.kwargs !! "quad" = Some (KQuad (Toy.chebgauss2 4))) as Hq.
  { vm_compute; reflexivity. }
  split; [exact Hq|].
  exact (epsilon_32_quad_overrides_num_quad Toy.pow Toy.integer_pow Toy.compress
           Toy.reshape_data Toy.required_names Toy.get_pitch_inv_quad
           Toy.chebgauss2 _ _ Toy.Bounce1D_new Toy.Bounce1D_points
           Toy.Bounce1D_integrate Toy.grid Toy.data Toy.kwargs (Toy.chebgauss2 4)
           (KInt 7) Hq).
Defined.

Lemma epsilon_32_keyword_defaults_witness :
  let kwargs : gmap string KwVal := {["quad" := KQuad (Toy.chebgauss2 4)]} in
  toy_epsilon_32 Toy.grid Toy.data (<["num_pitch" := KInt 50]> kwargs)
  = toy_epsilon_32 Toy.grid Toy.data kwargs ∧
  toy_epsilon_32 Toy.grid Toy.data (<["batch" := KBool true]> kwargs)
  = toy_epsilon_32 Toy.grid Toy.data kwargs ∧
  toy_epsilon_32 Toy.grid Toy.data (<["num_well" := KNone]> kwargs)
  = toy_epsilon_32 Toy.grid Toy.data kwargs ∧
  toy_epsilon_32 Toy.grid Toy.data (<["num_quad" := KInt 32]> kwargs)
  = toy_epsilon_32 Toy.grid Toy.data kwargs.
Proof.
  intros kwargs.
  destruct (epsilon_32_keyword_defaults Toy.pow Toy.integer_pow Toy.compress
              Toy.reshape_data Toy.required_names Toy.get_pitch_inv_quad
              Toy.chebgauss2 _ _ Toy.Bounce1D_new Toy.Bounce1D_points
              Toy.Bounce1D_integrate Toy.grid Toy.data kwargs)
    as (Hp & Hb & Hw & Hq).
  split; [apply Hp; vm_compute; reflexivity|].
  split; [apply Hb; vm_compute; reflexivity|].
  split; [apply Hw; vm_compute; reflexivity|].
  apply Hq; vm_compute; reflexivity.
Defined.

Lemma compute_modifies_fun_data_witness :
  let fun_ := λ d : gmap string (list float), array_sum <$> d !! "|B|" in
  let fun_data : gmap string ndarray :=
    <["|B|" := Toy.on_nodes 7]> {["kappa_g" := Toy.on_nodes 3]} in
  ∃ r fd,
    _compute Toy.compress Toy.reshape_data Toy.required_names
      Toy.get_pitch_inv_quad fun_ fun_data Toy.data Toy.grid 2 false true
    = Some (r, fd) ∧
    (∃ v, Toy.data !! "|B|" = Some v ∧
          fd !! "|B|" = Some (Toy.reshape_data Toy.grid v)) ∧
    fd !! "kappa_g" = Some (Toy.reshape_data Toy.grid (Toy.on_nodes 3)).
Proof.
  intros fun_ fun_data.
  assert (match _compute Toy.compress Toy.reshape_data Toy.required_names
                  Toy.get_pitch_inv_quad fun_ fun_data Toy.data Toy.grid 2 false
                  true with
          | Some _ => true
          | None => false
          end = true) as Hrun.
  { vm_compute; reflexivity. }
  destruct (_compute Toy.compress Toy.reshape_data Toy.required_names
              Toy.get_pitch_inv_quad fun_ fun_data Toy.data Toy.grid 2 false true)
    as [[r fd]|] eqn:Hc; [|discriminate Hrun].
  destruct (compute_modifies_fun_data Toy.compress Toy.reshape_data
              Toy.required_names Toy.get_pitch_inv_quad fun_ fun_data Toy.data
              Toy.grid 2 false true r fd Hc) as [Hreq Hoth].
  exists r, fd. split; [reflexivity|]. split.
  - apply Hreq. unfold Toy.required_names.
    repeat (first [apply list_elem_of_here|apply list_elem_of_further]).
  - rewrite Hoth; [reflexivity|].
    intros Hk. unfold Toy.required_names in Hk.
    repeat (apply elem_of_cons in Hk as [Hk|Hk]; [discriminate Hk|]).
    by apply elem_of_nil in Hk.
Defined.

Lemma compute_out_shape_witness :
  let fun_ := λ d : gmap string (list float), array_sum <$> d !! "|B|" in
  ∃ out,
    _compute_out Toy.compress Toy.reshape_data Toy.required_names
      Toy.get_pitch_inv_quad fun_ ∅ Toy.data Toy.grid 2 false
    = Some out ∧
    Forall (λ row, length row = 2) out.
Proof.
  intros fun_.
  assert (match _compute_out Toy.compress Toy.reshape_data Toy.required_names
                  Toy.get_pitch_inv_quad fun_ ∅ Toy.data Toy.grid 2 false with
          | Some _ => true
          | None => false
          end = true) as Hrun.
  { vm_compute; reflexivity. }
  destruct (_compute_out Toy.compress Toy.reshape_data Toy.required_names
              Toy.get_pitch_inv_quad fun_ ∅ Toy.data Toy.grid 2 false)
    as [out|] eqn:Hout; [|discriminate Hrun].
  assert (match fun_data_reshaped Toy.reshape_data Toy.required_names ∅ Toy.data
                  Toy.grid with
          | Some _ => true
          | None => false
          end = true) as Hrun'.
  { vm_compute; reflexivity. }
  destruct (fun_data_reshaped Toy.reshape_data Toy.required_names ∅ Toy.data
              Toy.grid) as [fd|] eqn:Hfd; [|discriminate Hrun'].
  destruct (compute_out_shape Toy.compress Toy.reshape_data Toy.required_names
              Toy.get_pitch_inv_quad fun_ ∅ Toy.data Toy.grid 2 false out
              (Toy.get_pitch_inv_quad [1; 1]%float [2; 2]%float 2 false) fd Hout)
    as [Hrows _].
  - vm_compute; reflexivity.
  - exact Hfd.
  - exists out. split; [reflexivity|exact Hrows].
Defined.

Lemma ripple_pipeline_is_stable_witness :
  ("effective ripple 3/2" ∉ Toy.required_names) ∧
  ("effective ripple" ∉ Toy.required_names) ∧
  ∃ d1 d2,
    toy_epsilon_32 Toy.grid Toy.data Toy.kwargs = Some d1 ∧
    _effective_ripple Toy.pow d1 = Some d2 ∧
    toy_epsilon_32 Toy.grid d2 Toy.kwargs = Some d2 ∧
    _effective_ripple Toy.pow d2 = Some d2.
Proof.
  assert (∀ k : string,
            (if decide (k ∈ Toy.required_names) then true else false) = false →
            k ∉ Toy.required_names) as Hdec.
  { intros k Hk. by destruct (decide (k ∈ Toy.required_names)). }
  assert ("effective ripple 3/2" ∉ Toy.required_names) as H32.
  { apply Hdec. vm_compute; reflexivity. }
  assert ("effective ripple" ∉ Toy.required_names) as H1.
  { apply Hdec. vm_compute; reflexivity. }
  split; [exact H32|]. split; [exact H1|].
  assert (match toy_epsilon_32 Toy.grid Toy.data Toy.kwargs with
          | Some _ => true
          | None => false
          end = true) as Hrun.
  { vm_compute; reflexivity. }
  destruct (toy_epsilon_32 Toy.grid Toy.data Toy.kwargs) as [d1|] eqn:He;
    [|discriminate Hrun].
  destruct (ripple_pipeline_is_stable Toy.pow Toy.integer_pow Toy.compress
              Toy.reshape_data Toy.required_names Toy.get_pitch_inv_quad
              Toy.chebgauss2 _ _ Toy.Bounce1D_new Toy.Bounce1D_points
              Toy.Bounce1D_integrate Toy.grid Toy.data d1 Toy.kwargs H32 H1 He)
    as (e & d2 & _ & Hr & _ & _ & _ & He2 & Hr2).
  exists d1, d2. split; [reflexivity|]. split; [exact Hr|].
  split; [exact He2|exact Hr2].
Defined.

Abbreviation toy_EffectiveRipple_build :=
  (EffectiveRipple_build unit (list string) (list string) Toy.LinearGrid
     Toy.get_transforms Toy.get_profiles (λ t b _, (t, b))).

Abbreviation toy_EffectiveRipple_request :=
  (EffectiveRipple_request Toy.compress unit unit (list string) (list string)
     Toy.get_transforms Toy.compute_fun Toy._get_rtz_grid
     Toy.copy_data_from_other).

Lemma EffectiveRipple_compute_request_witness :
  let a : ObjectiveArgs unit :=
    {| arg_things := tt; arg_target := None; arg_bounds := None;
       arg_weight := 1%float; arg_normalize := true;
       arg_normalize_target := true; arg_loss_function := None;
       arg_deriv_mode := "auto"; arg_name := "Effective ripple";
       arg_jac_chunk_size := None |} in
  let b : BounceArgs :=
    {| arg_rho := Array [0.5; 1]%float; arg_alpha := Scalar 0%float;
       arg_batch := true; arg_Y_B := 4; arg_num_transit := 2;
       arg_num_quad := 4; arg_num_pitch := 2; arg_num_well := None |} in
  ∃ built rq,
    toy_EffectiveRipple_build
      (EffectiveRipple_init Toy.chebgauss2 unit (list string) (list string)
         Toy.linspace a b)
    = Some built ∧
    toy_EffectiveRipple_request built tt None = Some rq ∧
    rq_name (list string) (list string) rq = "effective ripple" ∧
    rq_data (list string) (list string) rq !! "effective ripple" = None.
Proof.
  intros a b.
  destruct (EffectiveRipple_compute_request Toy.compress Toy.chebgauss2 unit unit
              (list string) (list string) Toy.LinearGrid Toy.get_transforms
              Toy.get_profiles Toy.compute_fun Toy._get_rtz_grid
              Toy.copy_data_from_other Toy.linspace (λ t b _, (t, b)) a b)
    as (built & Hb & Hrq).
  assert (match toy_EffectiveRipple_request built tt None with
          | Some _ => true
          | None => false
          end = true) as Hrun.
  { injection Hb as <-. vm_compute; reflexivity. }
  destruct (toy_EffectiveRipple_request built tt None) as [rq|] eqn:Hr;
    [|discriminate Hrun].
  destruct (Hrq tt rq Hr) as (Hn & _ & _ & Hout & _).
  exists built, rq. split; [exact Hb|]. split; [exact Hr|].
  split; [exact Hn|]. apply Hout.
  intros Hk. repeat (apply elem_of_cons in Hk as [Hk|Hk]; [discriminate Hk|]).
  by apply elem_of_nil in Hk.
Defined.

Lemma EffectiveRipple_hyperparameters_reach_kernel_witness :
  let a : ObjectiveArgs unit :=
    {| arg_things := tt; arg_target := None; arg_bounds := None;
       arg_weight := 1%float; arg_normalize := true;
       arg_normalize_target := true; arg_loss_function := None;
       arg_deriv_mode := "auto"; arg_name := "Effective ripple";
       arg_jac_chunk_size := None |} in
  let b : BounceArgs :=
    {| arg_rho := Array [0.5; 1]%float; arg_alpha := Scalar 0%float;
       arg_batch := false; arg_Y_B := 4; arg_num_transit := 2;
       arg_num_quad := 4; arg_num_pitch := 2; arg_num_well := Some 3 |} in
  ∃ built rq,
    toy_EffectiveRipple_build
      (EffectiveRipple_init Toy.chebgauss2 unit (list string) (list string)
         Toy.linspace a b)
    = Some built ∧
    toy_EffectiveRipple_request built tt None = Some rq ∧
    kw_quad Toy.chebgauss2 (rq_kwargs (list string) (list string) rq)
    = Some (Toy.chebgauss2 4) ∧
    kw_int (rq_kwargs (list string) (list string) rq) "num_pitch" 50 = Some 2 ∧
    kw_bool (rq_kwargs (list string) (list string) rq) "batch" true = Some false ∧
    kw_int_or_none (rq_kwargs (list string) (list string) rq) "num_well"
    = Some (Some 3).
Proof.
  intros a b.
  destruct (EffectiveRipple_hyperparameters_reach_kernel Toy.compress
              Toy.chebgauss2 unit unit (list string) (list string) Toy.LinearGrid
              Toy.get_transforms Toy.get_profiles Toy.compute_fun
              Toy._get_rtz_grid Toy.copy_data_from_other Toy.linspace
              (λ t b _, (t, b)) a b)
    as (built & Hb & Hrq).
  assert (match toy_EffectiveRipple_request built tt None with
          | Some _ => true
          | None => false
          end = true) as Hrun.
  { injection Hb as <-. vm_compute; reflexivity. }
  destruct (toy_EffectiveRipple_request built tt None) as [rq|] eqn:Hr;
    [|discriminate Hrun].
  destruct (Hrq tt rq Hr) as (_ & Hq & Hp & Hbt & Hw).
  exists built, rq. split; [exact Hb|]. split; [exact Hr|].
  split; [exact Hq|]. split; [exact Hp|]. split; [exact Hbt|exact Hw].
Defined.

Lemma GammaC_compute_keywords_witness :
  let a : ObjectiveArgs unit :=
    {| arg_things := tt; arg_target := None; arg_bounds := None;
       arg_weight := 1%float; arg_normalize := true;
       arg_normalize_target := true; arg_loss_function := None;
       arg_deriv_mode := "auto"; arg_name := "Gamma_c";
       arg_jac_chunk_size := None |} in
  let b : BounceArgs :=
    {| arg_rho := Array [0.5; 1]%float; arg_alpha := Scalar 0%float;
       arg_batch := true; arg_Y_B := 4; arg_num_transit := 2;
       arg_num_quad := 4; arg_num_pitch := 2; arg_num_well := None |} in
  ∃ self rq,
    toy_GammaC_build
      (GammaC_init unit (list string) (list string) Toy.linspace a b false)
    = Some self ∧
    toy_GammaC_request self tt None = Some rq ∧
    rq_kwargs (list string) (list string) rq !! "num_quad" = None.
Proof.
  intros a b.
  destruct (GammaC_compute_keywords Toy.compress Toy.chebgauss2 unit unit
              (list string) (list string) Toy.LinearGrid Toy.get_transforms
              Toy.get_profiles Toy.compute_fun Toy._get_rtz_grid
              Toy.copy_data_from_other Toy.chebgauss2 Toy.get_quadrature
              (λ x : float, x) (λ x : float, x) Toy.linspace (λ t b _, (t, b))
              a b false)
    as (self & Hb & _ & Hrq).
  assert (match toy_GammaC_request self tt None with
          | Some _ => true
          | None => false
          end = true) as Hrun.
  { injection Hb as <-. vm_compute; reflexivity. }
  destruct (toy_GammaC_request self tt None) as [rq|] eqn:Hr;
    [|discriminate Hrun].
  destruct (Hrq tt rq Hr) as [_ Hnq].
  exists self, rq. split; [exact Hb|]. split; [exact Hr|exact Hnq].
Defined.

(** ** Evaluations at the small instance *)

Example safediv_nan_by_zero :
  safediv nan 0 = 0%float ∧ PrimFloat.is_nan (nan / 0) = true.
Proof. split; reflexivity. Qed.

Example safediv_by_negative_zero : safediv 1 (-0) = 0%float.
Proof. reflexivity. Qed.

Example effective_ripple_of_eight :
  _effective_ripple Toy.pow {["effective ripple 3/2" := Array [8; 0]%float]}
    ≫= (λ d, d !! "effective ripple")
  = Some (Array [4; 0]%float).
Proof. vm_compute. reflexivity. Qed.

Example fieldline_length_toy :
  _fieldline_length Toy.simpson Toy.compress Toy.meshgrid_reshape Toy.data Toy.grid
    ≫= (λ d, d !! "fieldline length")
  = Some (Toy.on_nodes 4).
Proof. vm_compute. reflexivity. Qed.

Example epsilon_32_toy_is_finite :
  match toy_epsilon_32 Toy.grid Toy.data Toy.kwargs with
  | Some d =>
      match d !! "effective ripple 3/2" with
      | Some e =>
          forallb (λ x, (0 <? x)%float && (x <? 1)%float) (entries e)
          && (length (entries e) =? 12)
      | None => false
      end
  | None => false
  end = true.
Proof. vm_compute. reflexivity. Qed.
